(** * Security-group manager of the AWS load balancer controller

    A shallow embedding of [pkg/deploy/ec2/security_group_manager.go]:
    the translation of desired ingress rules into permission descriptors
    ([buildIPPermissionInfo], [buildIPPermissionInfos]), and the three
    operations of [defaultSecurityGroupManager] ([Create], [Update],
    [Delete]) over an explicit world made of a clock and the trace of the
    calls issued to the collaborators. *)

From Stdlib Require Import ZArith Lia.
From stdpp Require Import base option list strings gmap.

Local Open Scope Z_scope.

(** ** Go values *)

(** The [error] values that flow through the manager.  [AwsError] stands
    for a value implementing [awserr.Error] (the only kind for which the
    type assertion of [Delete] succeeds), [ErrorsNew] for a value built by
    [errors.New], [ErrWaitTimeout] for the sentinel of the [wait] package
    and the last two for the sentinels of the [context] package. *)
Inductive GoError : Type :=
| AwsError (code message : string)
| ErrorsNew (message : string)
| ErrWaitTimeout
| ContextCanceled
| ContextDeadlineExceeded.

#[global] Instance GoError_eq_dec : EqDecision GoError.
Proof. solve_decision. Defined.

(** A Go result pair [(v, err)]: either the value with a nil error, or
    the error (the accompanying zero value carries no information). *)
Inductive result (A : Type) : Type :=
| Ok (a : A)
| Err (e : GoError).
Arguments Ok {A} a.
Arguments Err {A} e.

Definition is_Ok {A} (r : result A) : bool :=
  match r with Ok _ => true | Err _ => false end.

(** [time.Duration] and instants, both counted in nanoseconds. *)
Definition Duration := Z.
Definition Nanosecond : Duration := 1.
Definition Second : Duration := 1000000000 * Nanosecond.
Definition Minute : Duration := 60 * Second.

(** Go's [map[string]string]. *)
Abbreviation TagMap := (gmap string string).

(** ** The desired-state model ([ec2model]) *)

Record IPRange := {
  CIDRIP : string;
  IPRange_Description : string;
}.

Record IPv6RangeEntry := {
  CIDRIPv6 : string;
  IPv6Range_Description : string;
}.

Record UserIDGroupPair := {
  GroupID : string;
  UserIDGroupPair_Description : string;
}.

(** Ports are optional in the model (a nil pointer for protocols without
    ports); the manager only ever passes them on. *)
Record IPPermission := {
  IPProtocol : string;
  FromPort : option Z;
  ToPort : option Z;
  IPRanges : list IPRange;
  IPv6Range : list IPv6RangeEntry;
  UserIDGroupPairs : list UserIDGroupPair;
}.

Record SecurityGroupSpec := {
  GroupName : string;
  Description : string;
  Tags : TagMap;
  Ingress : list IPPermission;
}.

(** The resource node: the stack that owns it, its id in the stack and
    its spec. *)
Record SecurityGroup := {
  Stack : string;
  ID : string;
  Spec : SecurityGroupSpec;
}.

Record SecurityGroupStatus := {
  StatusGroupID : string;
}.

(** ** The [networking] package, as far as the manager uses it *)

(** The constructors of permission descriptors live in the [networking]
    package, outside this file: the manager is verified against any
    implementation of them. *)
Class Networking := {
  IPPermissionLabels : Type;
  IPPermissionInfo : Type;
  NewIPPermissionLabelsForRawDescription : string → IPPermissionLabels;
  NewCIDRIPPermission :
    string → option Z → option Z → string → IPPermissionLabels → IPPermissionInfo;
  NewCIDRv6IPPermission :
    string → option Z → option Z → string → IPPermissionLabels → IPPermissionInfo;
  NewGroupIDIPPermission :
    string → option Z → option Z → string → IPPermissionLabels → IPPermissionInfo;
}.

(** Modelled from the spec: the [networking] constructors are defined in
    another package.  The spec's data model describes a NetworkPermission
    as "protocol, port range, target kind + value, derived labels"; labels
    are "a pure string→label-set function" of the description, kept here
    as the raw description itself. *)
Module SpecModel.

Inductive TargetKind := CIDR | CIDRv6 | PeerGroup.

#[global] Instance TargetKind_eq_dec : EqDecision TargetKind.
Proof. solve_decision. Defined.

Record NetworkPermission := {
  Protocol : string;
  PortFrom : option Z;
  PortTo : option Z;
  Kind : TargetKind;
  Value : string;
  Labels : list string;
}.

Definition mk (k : TargetKind) (protocol : string) (fromPort toPort : option Z)
    (value : string) (labels : list string) : NetworkPermission :=
  {| Protocol := protocol; PortFrom := fromPort; PortTo := toPort;
     Kind := k; Value := value; Labels := labels |}.

#[global] Instance networking : Networking := {|
  IPPermissionLabels := list string;
  IPPermissionInfo := NetworkPermission;
  NewIPPermissionLabelsForRawDescription := λ d, [d];
  NewCIDRIPPermission := mk CIDR;
  NewCIDRv6IPPermission := mk CIDRv6;
  NewGroupIDIPPermission := mk PeerGroup;
|}.

End SpecModel.

(** ** Translation of ingress rules *)

Section Translation.
Context `{Networking}.

(** [buildIPPermissionInfo]: the three target lists are tried in turn,
    each for a length of exactly one. *)
Definition buildIPPermissionInfo (permission : IPPermission) : result IPPermissionInfo :=
  let protocol := IPProtocol permission in
  match IPRanges permission with
  | [r] =>
      let labels := NewIPPermissionLabelsForRawDescription (IPRange_Description r) in
      Ok (NewCIDRIPPermission protocol (FromPort permission) (ToPort permission)
            (CIDRIP r) labels)
  | _ =>
    match IPv6Range permission with
    | [r] =>
        let labels := NewIPPermissionLabelsForRawDescription (IPv6Range_Description r) in
        Ok (NewCIDRv6IPPermission protocol (FromPort permission) (ToPort permission)
              (CIDRIPv6 r) labels)
    | _ =>
      match UserIDGroupPairs permission with
      | [p] =>
          let labels :=
            NewIPPermissionLabelsForRawDescription (UserIDGroupPair_Description p) in
          Ok (NewGroupIDIPPermission protocol (FromPort permission) (ToPort permission)
                (GroupID p) labels)
      | _ => Err (ErrorsNew "invalid ipPermission")
      end
    end
  end.

(** [buildIPPermissionInfos]: the loop appends one descriptor per rule
    and leaves at the first error, dropping what it had gathered. *)
Fixpoint buildIPPermissionInfos_loop (permissionInfos : list IPPermissionInfo)
    (permissions : list IPPermission) : result (list IPPermissionInfo) :=
  match permissions with
  | [] => Ok permissionInfos
  | permission :: rest =>
      match buildIPPermissionInfo permission with
      | Err e => Err e
      | Ok permissionInfo =>
          buildIPPermissionInfos_loop (permissionInfos ++ [permissionInfo]) rest
      end
  end.

Definition buildIPPermissionInfos (permissions : list IPPermission)
    : result (list IPPermissionInfo) :=
  buildIPPermissionInfos_loop [] permissions.

End Translation.

(** ** Contexts *)

(** A [context.Context] as the manager can observe it: the instant at
    which its owner cancels it and its deadline, either of which may be
    absent. *)
Record Context := {
  cancelAt : option Z;
  deadline : option Z;
}.

Definition Background : Context := {| cancelAt := None; deadline := None |}.

Definition earliest (a b : option Z) : option Z :=
  match a, b with
  | Some x, Some y => Some (Z.min x y)
  | Some x, None => Some x
  | None, _ => b
  end.

(** [ctx.Done()]: the instant at which the channel is closed. *)
Definition Done (ctx : Context) : option Z :=
  earliest (cancelAt ctx) (deadline ctx).

(** [ctx.Err()] read at instant [t]. *)
Definition CtxErr (ctx : Context) (t : Z) : option GoError :=
  match cancelAt ctx, deadline ctx with
  | Some c, Some d =>
      if bool_decide (c ≤ t ∧ c ≤ d) then Some ContextCanceled
      else if bool_decide (d ≤ t) then Some ContextDeadlineExceeded else None
  | Some c, None => if bool_decide (c ≤ t) then Some ContextCanceled else None
  | None, Some d => if bool_decide (d ≤ t) then Some ContextDeadlineExceeded else None
  | None, None => None
  end.

(** [context.WithTimeout parent d], called at instant [t]: the child is
    cancelled with its parent and expires at [t + d], or at the parent's
    deadline when that one is earlier. *)
Definition WithTimeout (parent : Context) (t : Z) (d : Duration) : Context :=
  {| cancelAt := cancelAt parent;
     deadline := earliest (deadline parent) (Some (t + d)) |}.

(** ** Requests of the provider API ([ec2sdk]) *)

Record Tag := {
  Key : option string;
  Value : option string;
}.

Record TagSpecification := {
  ResourceType : option string;
  TagSpecification_Tags : list Tag;
}.

Record CreateSecurityGroupInput := {
  VpcId : option string;
  CreateSecurityGroupInput_GroupName : option string;
  CreateSecurityGroupInput_Description : option string;
  TagSpecifications : list TagSpecification;
}.

Record CreateSecurityGroupOutput := {
  GroupId : option string;
}.

Record DeleteSecurityGroupInput := {
  DeleteSecurityGroupInput_GroupId : option string;
}.

(** [awssdk.String] and [awssdk.StringValue]. *)
Definition awssdk_String (s : string) : option string := Some s.
Definition awssdk_StringValue (p : option string) : string := default "" p.

(** [convertTagsToSDKTags] belongs to this package but to another file;
    the manager is verified against any implementation of it. *)
Class SDKConversion := {
  convertTagsToSDKTags : TagMap → list Tag;
}.

(** Modelled from the spec: [convertTagsToSDKTags] is defined in another
    file; the spec only asks that "the merged tag set" be "attached at
    creation time", so every entry becomes one tag. *)
#[global] Instance SpecModel_conversion : SDKConversion := {|
  convertTagsToSDKTags := λ tags,
    (λ kv, {| Key := Some kv.1; Value := Some kv.2 |}) <$> map_to_list tags;
|}.

(** [networking.SecurityGroupInfo], as far as the manager reads it. *)
Record SecurityGroupInfo := {
  SecurityGroupID : string;
  SecurityGroupInfo_Tags : TagMap;
}.

(** The options handed to [ReconcileTags]. *)
Inductive ReconcileTagsOption : Type :=
| WithCurrentTags (tags : TagMap)
| WithIgnoredTagKeys (keys : list string).

(** The logger only receives informational messages, which are left out
    of the model. *)
Inductive Logger : Type := DiscardLogger.

(** ** The world: a clock and the trace of collaborator calls *)

Section Manager.
Context `{Networking} `{SDKConversion}.

(** A call issued by the manager to one of its collaborators, with the
    arguments it carried. *)
Inductive Call : Type :=
| CreateSecurityGroupCall (req : CreateSecurityGroupInput)
| DeleteSecurityGroupCall (req : DeleteSecurityGroupInput)
| ReconcileTagsCall (sgID : string) (desiredTags : TagMap)
    (opts : list ReconcileTagsOption)
| ReconcileIngressCall (sgID : string) (permissions : list IPPermissionInfo).

Definition isCreateCall (c : Call) : bool :=
  match c with CreateSecurityGroupCall _ => true | _ => false end.

Definition isDeleteCall (c : Call) : bool :=
  match c with DeleteSecurityGroupCall _ => true | _ => false end.

(** The current instant and the calls issued so far, oldest first, each
    with the instant at which it was issued. *)
Record World := {
  now : Z;
  calls : list (Z * Call);
}.

Definition record (c : Call) (w : World) : World :=
  {| now := now w; calls := calls w ++ [(now w, c)] |}.

Definition advance (t : Z) (w : World) : World :=
  {| now := t; calls := calls w |}.

(** Computations that read and extend the world and may fail with a Go
    error. *)
Definition M (A : Type) : Type := World → result A * World.

#[local] Instance M_ret : MRet M := λ A a w, (Ok a, w).
#[local] Instance M_bind : MBind M := λ A B f m w,
  match m w with
  | (Ok a, w') => f a w'
  | (Err e, w') => (Err e, w')
  end.

Definition lift {A} (r : result A) : M A := λ w, (r, w).

(** Issue call [c]: the collaborator answers from the world as it is
    before the call, and the call is appended to the trace.  Calls take
    no time. *)
Definition invoke {A} (c : Call) (respond : World → result A) : M A :=
  λ w, (respond w, record c w).

Definition ofError (e : option GoError) : result () :=
  match e with Some err => Err err | None => Ok () end.

(** ** Collaborator interfaces *)

Record EC2 := {
  CreateSecurityGroupWithContext :
    World → Context → CreateSecurityGroupInput → result CreateSecurityGroupOutput;
  DeleteSecurityGroupWithContext :
    World → Context → DeleteSecurityGroupInput → result ();
}.

Record TrackingProvider := {
  ResourceTags : string → SecurityGroup → TagMap → TagMap;
  LegacyTagKeys : list string;
}.

Record TaggingManager := {
  ReconcileTags :
    World → Context → string → TagMap → list ReconcileTagsOption → option GoError;
}.

Record SecurityGroupReconciler := {
  ReconcileIngress :
    World → Context → string → list IPPermissionInfo → option GoError;
}.

(** ** The manager *)

Definition defaultWaitSGDeletionPollInterval : Duration := 2 * Second.
Definition defaultWaitSGDeletionTimeout : Duration := 2 * Minute.

Record defaultSecurityGroupManager := {
  ec2Client : EC2;
  trackingProvider : TrackingProvider;
  taggingManager : TaggingManager;
  networkingSGReconciler : SecurityGroupReconciler;
  vpcID : string;
  logger : Logger;
  waitSGDeletionPollInterval : Duration;
  waitSGDeletionTimeout : Duration;
}.

Definition NewDefaultSecurityGroupManager (ec2Client : EC2)
    (trackingProvider : TrackingProvider) (taggingManager : TaggingManager)
    (networkingSGReconciler : SecurityGroupReconciler) (vpcID : string)
    (logger : Logger) : defaultSecurityGroupManager :=
  {| ec2Client := ec2Client;
     trackingProvider := trackingProvider;
     taggingManager := taggingManager;
     networkingSGReconciler := networkingSGReconciler;
     vpcID := vpcID;
     logger := logger;
     waitSGDeletionPollInterval := defaultWaitSGDeletionPollInterval;
     waitSGDeletionTimeout := defaultWaitSGDeletionTimeout |}.

(** ** Create *)

Definition createRequest (m : defaultSecurityGroupManager) (resSG : SecurityGroup)
    (sdkTags : list Tag) : CreateSecurityGroupInput :=
  {| VpcId := awssdk_String (vpcID m);
     CreateSecurityGroupInput_GroupName := awssdk_String (GroupName (Spec resSG));
     CreateSecurityGroupInput_Description := awssdk_String (Description (Spec resSG));
     TagSpecifications :=
       [ {| ResourceType := awssdk_String "security-group";
            TagSpecification_Tags := sdkTags |} ] |}.

Definition Create (m : defaultSecurityGroupManager) (ctx : Context)
    (resSG : SecurityGroup) : M SecurityGroupStatus :=
  let sgTags :=
    ResourceTags (trackingProvider m) (Stack resSG) resSG (Tags (Spec resSG)) in
  let sdkTags := convertTagsToSDKTags sgTags in
  permissionInfos ← lift (buildIPPermissionInfos (Ingress (Spec resSG)));
  let req := createRequest m resSG sdkTags in
  resp ← invoke (CreateSecurityGroupCall req)
           (λ w, CreateSecurityGroupWithContext (ec2Client m) w ctx req);
  let sgID := awssdk_StringValue (GroupId resp) in
  _ ← invoke (ReconcileIngressCall sgID permissionInfos)
        (λ w, ofError (ReconcileIngress (networkingSGReconciler m) w ctx sgID
                         permissionInfos));
  mret {| StatusGroupID := sgID |}.

(** ** Update *)

Definition updateSDKSecurityGroupGroupWithTags (m : defaultSecurityGroupManager)
    (ctx : Context) (resSG : SecurityGroup) (sdkSG : SecurityGroupInfo) : M () :=
  let desiredSGTags :=
    ResourceTags (trackingProvider m) (Stack resSG) resSG (Tags (Spec resSG)) in
  let opts := [ WithCurrentTags (SecurityGroupInfo_Tags sdkSG);
                WithIgnoredTagKeys (LegacyTagKeys (trackingProvider m)) ] in
  invoke (ReconcileTagsCall (SecurityGroupID sdkSG) desiredSGTags opts)
    (λ w, ofError (ReconcileTags (taggingManager m) w ctx (SecurityGroupID sdkSG)
                     desiredSGTags opts)).

Definition Update (m : defaultSecurityGroupManager) (ctx : Context)
    (resSG : SecurityGroup) (sdkSG : SecurityGroupInfo) : M SecurityGroupStatus :=
  permissionInfos ← lift (buildIPPermissionInfos (Ingress (Spec resSG)));
  _ ← updateSDKSecurityGroupGroupWithTags m ctx resSG sdkSG;
  _ ← invoke (ReconcileIngressCall (SecurityGroupID sdkSG) permissionInfos)
        (λ w, ofError (ReconcileIngress (networkingSGReconciler m) w ctx
                         (SecurityGroupID sdkSG) permissionInfos));
  mret {| StatusGroupID := SecurityGroupID sdkSG |}.

(** ** Polling ([k8s.io/apimachinery/pkg/util/wait]) *)

(** The poll utility comes from a library.  Its contract:
    [PollImmediateUntil] tries a condition until it returns true, returns
    an error, or the stop channel is closed; the condition runs before
    the first wait, hence at least once; [ErrWaitTimeout] is what the
    poll returns when the stop channel ended it.  Time is discrete here
    and a condition takes no time. *)

(** A [wait.ConditionFunc] returns [(done, err)] and may issue calls. *)
Definition ConditionFunc : Type := World → (bool * option GoError) * World.

(** The stop channel, given by the instant at which it is closed. *)
Definition closedAt (stopCh : option Z) (t : Z) : bool :=
  match stopCh with
  | Some s => bool_decide (s ≤ t)
  | None => false
  end.

(** How a sleep of the poll ends: on the tick, one [interval] after the
    sleep began, or before it because the stop channel was closed.  The
    poll is handed the channel and nothing else: it cannot tell why the
    channel was closed.  When both fall on the same instant the stop
    channel is taken to win. *)
Inductive Wake : Type :=
| Tick (t : Z)
| Stopped (t : Z).

Definition sleep (interval : Duration) (stopCh : option Z) (w : World) : Wake :=
  let tick := now w + interval in
  match stopCh with
  | Some s => if bool_decide (s ≤ tick) then Stopped (Z.max (now w) s) else Tick tick
  | None => Tick tick
  end.

(** The periodic part of the poll: sleep; if the stop channel is closed
    first, give up with [ErrWaitTimeout]; on a tick run [condition], and
    stop on an error or on [done].  [None] only when [fuel] iterations
    did not suffice. *)
Fixpoint pollLoop (fuel : nat) (interval : Duration) (condition : ConditionFunc)
    (stopCh : option Z) (w : World) : option (option GoError * World) :=
  match fuel with
  | O => None
  | S fuel' =>
      match sleep interval stopCh w with
      | Stopped t => Some (Some ErrWaitTimeout, advance t w)
      | Tick t =>
          match condition (advance t w) with
          | ((_, Some err), w') => Some (Some err, w')
          | ((true, None), w') => Some (None, w')
          | ((false, None), w') => pollLoop fuel' interval condition stopCh w'
          end
      end
  end.

(** [wait.PollImmediateUntil]: [condition] runs once before any wait,
    whatever the state of the stop channel. *)
Definition PollImmediateUntil (fuel : nat) (interval : Duration)
    (condition : ConditionFunc) (stopCh : option Z) (w : World)
    : option (option GoError * World) :=
  match condition w with
  | ((_, Some err), w') => Some (Some err, w')
  | ((true, None), w') => Some (None, w')
  | ((false, None), w') =>
      if closedAt stopCh (now w') then Some (Some ErrWaitTimeout, w')
      else pollLoop fuel interval condition stopCh w'
  end.

(** ** Delete *)

(** The closure handed to the poll: one delete-call and the
    classification of its outcome. *)
Definition deleteCondition (m : defaultSecurityGroupManager) (ctx : Context)
    (req : DeleteSecurityGroupInput) : ConditionFunc :=
  λ w,
    match invoke (DeleteSecurityGroupCall req)
            (λ w, DeleteSecurityGroupWithContext (ec2Client m) w ctx req) w with
    | (Err err, w') =>
        match err with
        | AwsError code _ =>
            if bool_decide (code = "DependencyViolation") then ((false, None), w')
            else ((false, Some err), w')
        | _ => ((false, Some err), w')
        end
    | (Ok _, w') => ((true, None), w')
    end.

(** [Delete] returns a Go [error]: [None] is nil. *)
Definition Delete (fuel : nat) (m : defaultSecurityGroupManager) (ctx : Context)
    (sdkSG : SecurityGroupInfo) (w : World) : option (option GoError * World) :=
  let req :=
    {| DeleteSecurityGroupInput_GroupId := awssdk_String (SecurityGroupID sdkSG) |} in
  let ctx := WithTimeout ctx (now w) (waitSGDeletionTimeout m) in
  PollImmediateUntil fuel (waitSGDeletionPollInterval m)
    (deleteCondition m ctx req) (Done ctx) w.

End Manager.

(** ** Notions the specification speaks of *)

(** A target kind is populated when its list holds at least one entry. *)
Definition populated {A} (l : list A) : nat :=
  match l with [] => 0%nat | _ :: _ => 1%nat end.

Definition populatedKinds (permission : IPPermission) : nat :=
  (populated (IPRanges permission) + populated (IPv6Range permission)
   + populated (UserIDGroupPairs permission))%nat.

(** The number of target entries of a rule, over its three lists. *)
Definition targetEntries (permission : IPPermission) : nat :=
  (length (IPRanges permission) + length (IPv6Range permission)
   + length (UserIDGroupPairs permission))%nat.

(** The transient dependency-conflict error kind, as [Delete] tests it. *)
Definition isDependencyViolation (err : GoError) : bool :=
  match err with
  | AwsError code _ => bool_decide (code = "DependencyViolation")
  | _ => false
  end.

(** The instants of the [n] ticks that follow instant [t]. *)
Fixpoint ticks (n : nat) (t : Z) (interval : Duration) : list Z :=
  match n with
  | O => []
  | S n' => (t + interval) :: ticks n' (t + interval) interval
  end.

(** ** What Create and Update are expected to send *)

Section Expected.
Context `{Networking} `{SDKConversion}.

(** The create request of [Create]. *)
Definition requestOf (m : defaultSecurityGroupManager) (resSG : SecurityGroup)
    : CreateSecurityGroupInput :=
  createRequest m resSG
    (convertTagsToSDKTags
       (ResourceTags (trackingProvider m) (Stack resSG) resSG (Tags (Spec resSG)))).

(** The tag reconciliation call of [Update]. *)
Definition tagsCallOf (m : defaultSecurityGroupManager) (resSG : SecurityGroup)
    (sdkSG : SecurityGroupInfo) : Call :=
  ReconcileTagsCall (SecurityGroupID sdkSG)
    (ResourceTags (trackingProvider m) (Stack resSG) resSG (Tags (Spec resSG)))
    [ WithCurrentTags (SecurityGroupInfo_Tags sdkSG);
      WithIgnoredTagKeys (LegacyTagKeys (trackingProvider m)) ].

(** The delete request of [Delete]. *)
Definition deleteRequestOf (sdkSG : SecurityGroupInfo) : DeleteSecurityGroupInput :=
  {| DeleteSecurityGroupInput_GroupId := Some (SecurityGroupID sdkSG) |}.

(** A provider that refuses every delete-call with the dependency
    conflict. *)
Definition alwaysRefused (m : defaultSecurityGroupManager) : Prop :=
  ∀ w ctx req, ∃ msg,
    DeleteSecurityGroupWithContext (ec2Client m) w ctx req
    = Err (AwsError "DependencyViolation" msg).

(** The delete-calls of [sdkSG] issued at the instants [ts]. *)
Definition deleteCallsAt (sdkSG : SecurityGroupInfo) (ts : list Z) : list (Z * Call) :=
  (λ t, (t, DeleteSecurityGroupCall (deleteRequestOf sdkSG))) <$> ts.

End Expected.

(** The number of ticks that fall strictly between instants [t] and [s]. *)
Definition ticksBefore (t s : Z) (interval : Duration) : nat :=
  Z.to_nat ((s - t - 1) / interval).

(** ** Collaborators used in the worked scenarios *)

Section Doubles.
Context `{Networking} `{SDKConversion}.

Definition dependencyViolation : GoError :=
  AwsError "DependencyViolation" "resource has a dependent object".

Definition deleteCallsSoFar (w : World) : nat :=
  length (List.filter (λ tc, isDeleteCall tc.2) (calls w)).

(** A provider client whose create-call answers [sgID] and whose
    delete-call is refused with the dependency conflict for the first
    [refusals] attempts ([None]: for ever). *)
Definition stubEC2 (sgID : string) (refusals : option nat) : EC2 :=
  {| CreateSecurityGroupWithContext := λ _ _ _, Ok {| GroupId := Some sgID |};
     DeleteSecurityGroupWithContext := λ w _ _,
       match refusals with
       | None => Err dependencyViolation
       | Some n =>
           if bool_decide (deleteCallsSoFar w < n)%nat then Err dependencyViolation
           else Ok ()
       end |}.

(** Modelled from the spec: the tracking provider is defined in another
    package; it yields "user tags merged with controller-managed tracking
    tags; on key collision, tracking tags take precedence". *)
Definition mergingProvider (tracking : TagMap) (legacy : list string)
    : TrackingProvider :=
  {| ResourceTags := λ _ _ userTags, tracking ∪ userTags;
     LegacyTagKeys := legacy |}.

Definition stubTaggingManager : TaggingManager :=
  {| ReconcileTags := λ _ _ _ _ _, None |}.

Definition stubReconciler : SecurityGroupReconciler :=
  {| ReconcileIngress := λ _ _ _ _, None |}.

Definition stubManager (refusals : option nat) : defaultSecurityGroupManager :=
  NewDefaultSecurityGroupManager (stubEC2 "sg-0123" refusals)
    (mergingProvider {[ "elbv2.k8s.aws/cluster" := "prod" ]} ["kubernetes.io/cluster-name"])
    stubTaggingManager stubReconciler "vpc-1" DiscardLogger.

Definition startWorld : World := {| now := 0; calls := [] |}.

End Doubles.

Definition httpsRule : IPPermission :=
  {| IPProtocol := "tcp"; FromPort := Some 443; ToPort := Some 443;
     IPRanges := [ {| CIDRIP := "0.0.0.0/0"; IPRange_Description := "" |} ];
     IPv6Range := []; UserIDGroupPairs := [] |}.

(** A rule with two target kinds populated, one entry each. *)
Definition dualStackRule : IPPermission :=
  {| IPProtocol := "tcp"; FromPort := Some 443; ToPort := Some 443;
     IPRanges := [ {| CIDRIP := "0.0.0.0/0"; IPRange_Description := "" |} ];
     IPv6Range := [ {| CIDRIPv6 := "::/0"; IPv6Range_Description := "" |} ];
     UserIDGroupPairs := [] |}.

(** A rule with no target at all. *)
Definition emptyRule : IPPermission :=
  {| IPProtocol := "tcp"; FromPort := Some 80; ToPort := Some 80;
     IPRanges := []; IPv6Range := []; UserIDGroupPairs := [] |}.

Definition exampleSG (ingress : list IPPermission) : SecurityGroup :=
  {| Stack := "default/web"; ID := "ManagedLBSecurityGroup";
     Spec := {| GroupName := "k8s-web"; Description := "managed by the controller";
                Tags := {[ "team" := "edge" ]}; Ingress := ingress |} |}.

Definition existingSG : SecurityGroupInfo :=
  {| SecurityGroupID := "sg-0123"; SecurityGroupInfo_Tags := {[ "team" := "core" ]} |}.

(** A caller's context cancelled three seconds after instant zero. *)
Definition cancelledAfter3s : Context :=
  {| cancelAt := Some (3 * Second); deadline := None |}.

(** ** Further notions for the delete loop *)

(** What the closure of [Delete] answers to the poll for a given outcome
    of the delete-call. *)
Definition conditionOutcome (r : result ()) : bool * option GoError :=
  match r with
  | Ok _ => (true, None)
  | Err e => if isDependencyViolation e then (false, None) else (false, Some e)
  end.

(** A delete-call refused with the dependency conflict. *)
Definition isRefusal (r : result ()) : bool :=
  match r with
  | Ok _ => false
  | Err e => isDependencyViolation e
  end.

(** The Go [error] of an outcome. *)
Definition errorOf (r : result ()) : option GoError :=
  match r with
  | Ok _ => None
  | Err e => Some e
  end.

(** The instants of the first [j] attempts of a loop entered at [t]: the
    entry and the ticks that follow. *)
Definition attemptInstants (t : Z) (interval : Duration) (j : nat) : list Z :=
  match j with
  | O => []
  | S j' => t :: ticks j' t interval
  end.

Section Attempts.
Context `{Networking} `{SDKConversion}.

(** The world in which attempt number [j] (counted from zero) of a
    [Delete] entered in world [w] is made, all earlier attempts having
    been refused. *)
Definition attemptWorld (w : World) (sdkSG : SecurityGroupInfo) (interval : Duration)
    (j : nat) : World :=
  {| now := now w + Z.of_nat j * interval;
     calls := calls w ++ deleteCallsAt sdkSG (attemptInstants (now w) interval j) |}.

(** The context under which [Delete] entered in world [w] runs. *)
Definition deleteContext (m : defaultSecurityGroupManager) (ctx : Context) (w : World)
    : Context :=
  WithTimeout ctx (now w) (waitSGDeletionTimeout m).

(** The answer of the provider to the delete-call of [sdkSG] made in
    world [w'] by a [Delete] entered in world [w]. *)
Definition deleteAnswer (m : defaultSecurityGroupManager) (ctx : Context) (w : World)
    (sdkSG : SecurityGroupInfo) (w' : World) : result () :=
  DeleteSecurityGroupWithContext (ec2Client m) w' (deleteContext m ctx w)
    (deleteRequestOf sdkSG).

(** ** More collaborators for the worked scenarios *)

Definition unauthorized : GoError :=
  AwsError "UnauthorizedOperation" "not authorized to perform this operation".

(** A provider client that rejects every call. *)
Definition brokenEC2 : EC2 :=
  {| CreateSecurityGroupWithContext := λ _ _ _, Err unauthorized;
     DeleteSecurityGroupWithContext := λ _ _ _, Err unauthorized |}.

(** A provider client whose create-call answers without a group id. *)
Definition silentEC2 : EC2 :=
  {| CreateSecurityGroupWithContext := λ _ _ _, Ok {| GroupId := None |};
     DeleteSecurityGroupWithContext := λ _ _ _, Ok () |}.

Definition brokenTaggingManager : TaggingManager :=
  {| ReconcileTags := λ _ _ _ _ _, Some unauthorized |}.

Definition brokenReconciler : SecurityGroupReconciler :=
  {| ReconcileIngress := λ _ _ _ _, Some unauthorized |}.

Definition managerOf (ec2 : EC2) (tagging : TaggingManager)
    (reconciler : SecurityGroupReconciler) : defaultSecurityGroupManager :=
  NewDefaultSecurityGroupManager ec2
    (mergingProvider {[ "elbv2.k8s.aws/cluster" := "prod" ]} ["kubernetes.io/cluster-name"])
    tagging reconciler "vpc-1" DiscardLogger.

(** Manager [m] with other deletion settings. *)
Definition withDeletionSettings (m : defaultSecurityGroupManager)
    (interval timeout : Duration) : defaultSecurityGroupManager :=
  {| ec2Client := ec2Client m;
     trackingProvider := trackingProvider m;
     taggingManager := taggingManager m;
     networkingSGReconciler := networkingSGReconciler m;
     vpcID := vpcID m;
     logger := logger m;
     waitSGDeletionPollInterval := interval;
     waitSGDeletionTimeout := timeout |}.

End Attempts.

(** A rule whose only target is a peer group. *)
Definition peerGroupRule : IPPermission :=
  {| IPProtocol := "tcp"; FromPort := Some 8080; ToPort := Some 8080;
     IPRanges := []; IPv6Range := [];
     UserIDGroupPairs :=
       [ {| GroupID := "sg-0456"; UserIDGroupPair_Description := "backend" |} ] |}.

(** A rule with one entry of every target kind. *)
Definition tripleRule : IPPermission :=
  {| IPProtocol := "tcp"; FromPort := Some 443; ToPort := Some 443;
     IPRanges := [ {| CIDRIP := "10.0.0.0/8"; IPRange_Description := "v4" |} ];
     IPv6Range := [ {| CIDRIPv6 := "::/0"; IPv6Range_Description := "v6" |} ];
     UserIDGroupPairs :=
       [ {| GroupID := "sg-0456"; UserIDGroupPair_Description := "backend" |} ] |}.

(** A rule with two IPv4 ranges next to one IPv6 range and one peer
    group. *)
Definition crowdedRule : IPPermission :=
  {| IPProtocol := "tcp"; FromPort := Some 443; ToPort := Some 443;
     IPRanges := [ {| CIDRIP := "10.0.0.0/8"; IPRange_Description := "a" |};
                   {| CIDRIP := "192.168.0.0/16"; IPRange_Description := "b" |} ];
     IPv6Range := [ {| CIDRIPv6 := "::/0"; IPv6Range_Description := "v6" |} ];
     UserIDGroupPairs :=
       [ {| GroupID := "sg-0456"; UserIDGroupPair_Description := "backend" |} ] |}.

(** * Properties *)

(** Case analysis on the three target lists of rule [r], each taken as
    empty, singleton, or longer. *)
Ltac destruct_targets r :=
  destruct (IPRanges r) as [|? [|? ?]], (IPv6Range r) as [|? [|? ?]],
    (UserIDGroupPairs r) as [|? [|? ?]].

(** ** Translation *)

Section TranslationFacts.
Context `{Networking}.

Lemma buildIPPermissionInfo_error (r : IPPermission) (e : GoError) :
  buildIPPermissionInfo r = Err e → e = ErrorsNew "invalid ipPermission".
Proof.
  unfold buildIPPermissionInfo. destruct_targets r; congruence.
Qed.

Lemma buildIPPermissionInfos_loop_acc (acc : list IPPermissionInfo)
    (rules : list IPPermission) :
  buildIPPermissionInfos_loop acc rules =
    match buildIPPermissionInfos_loop [] rules with
    | Ok infos => Ok (acc ++ infos)
    | Err e => Err e
    end.
Proof.
  revert acc. induction rules as [|r rules IH]; intros acc; simpl.
  - by rewrite app_nil_r.
  - destruct (buildIPPermissionInfo r) as [i|e]; [|done].
    rewrite (IH (acc ++ [i])), (IH [i]).
    destruct (buildIPPermissionInfos_loop [] rules); [|done].
    by rewrite <- app_assoc.
Qed.

Lemma buildIPPermissionInfos_cons (r : IPPermission) (rules : list IPPermission) :
  buildIPPermissionInfos (r :: rules) =
    match buildIPPermissionInfo r with
    | Err e => Err e
    | Ok i =>
        match buildIPPermissionInfos rules with
        | Ok infos => Ok (i :: infos)
        | Err e => Err e
        end
    end.
Proof.
  unfold buildIPPermissionInfos; simpl.
  destruct (buildIPPermissionInfo r) as [i|e]; [|done].
  by rewrite buildIPPermissionInfos_loop_acc.
Qed.



End TranslationFacts.

(** ** The tracking provider of the worked scenarios *)

Section MergingProvider.
Context `{Networking}.

(** On a key that both tag sets hold, the tracking tag wins. *)
Lemma mergingProvider_tracking_wins (tracking userTags : TagMap) (legacy : list string)
    (stack : string) (res : SecurityGroup) (k v : string) :
  tracking !! k = Some v →
  ResourceTags (mergingProvider tracking legacy) stack res userTags !! k = Some v.
Proof. intros Hk. simpl. by apply lookup_union_Some_l. Qed.

(** A user tag whose key is no tracking key is kept. *)
Lemma mergingProvider_keeps_user_tags (tracking userTags : TagMap)
    (legacy : list string) (stack : string) (res : SecurityGroup) (k : string) :
  tracking !! k = None →
  ResourceTags (mergingProvider tracking legacy) stack res userTags !! k
  = userTags !! k.
Proof. intros Hk. simpl. by apply lookup_union_r. Qed.

End MergingProvider.

(** ** Create and Update, step by step *)

Section ManagerFacts.
Context `{Networking} `{SDKConversion}.

Lemma Create_run (m : defaultSecurityGroupManager) (ctx : Context)
    (resSG : SecurityGroup) (w : World) :
  Create m ctx resSG w =
    match buildIPPermissionInfos (Ingress (Spec resSG)) with
    | Err e => (Err e, w)
    | Ok infos =>
        let req := requestOf m resSG in
        let w1 := record (CreateSecurityGroupCall req) w in
        match CreateSecurityGroupWithContext (ec2Client m) w ctx req with
        | Err e => (Err e, w1)
        | Ok resp =>
            let sgID := awssdk_StringValue (GroupId resp) in
            let w2 := record (ReconcileIngressCall sgID infos) w1 in
            match ReconcileIngress (networkingSGReconciler m) w1 ctx sgID infos with
            | Some e => (Err e, w2)
            | None => (Ok {| StatusGroupID := sgID |}, w2)
            end
        end
    end.
Proof.
  unfold Create, requestOf, mbind, M_bind, lift, invoke, mret, M_ret, ofError; simpl.
  destruct (buildIPPermissionInfos _) as [infos|e]; [|done].
  destruct (CreateSecurityGroupWithContext _ _ _ _) as [resp|e]; [|done].
  by destruct (ReconcileIngress _ _ _ _ _).
Qed.

Lemma Update_run (m : defaultSecurityGroupManager) (ctx : Context)
    (resSG : SecurityGroup) (sdkSG : SecurityGroupInfo) (w : World) :
  Update m ctx resSG sdkSG w =
    match buildIPPermissionInfos (Ingress (Spec resSG)) with
    | Err e => (Err e, w)
    | Ok infos =>
        let sgID := SecurityGroupID sdkSG in
        let desired :=
          ResourceTags (trackingProvider m) (Stack resSG) resSG (Tags (Spec resSG)) in
        let opts := [ WithCurrentTags (SecurityGroupInfo_Tags sdkSG);
                      WithIgnoredTagKeys (LegacyTagKeys (trackingProvider m)) ] in
        let w1 := record (tagsCallOf m resSG sdkSG) w in
        match ReconcileTags (taggingManager m) w ctx sgID desired opts with
        | Some e => (Err e, w1)
        | None =>
            let w2 := record (ReconcileIngressCall sgID infos) w1 in
            match ReconcileIngress (networkingSGReconciler m) w1 ctx sgID infos with
            | Some e => (Err e, w2)
            | None => (Ok {| StatusGroupID := sgID |}, w2)
            end
        end
    end.
Proof.
  unfold Update, updateSDKSecurityGroupGroupWithTags, tagsCallOf, mbind, M_bind, lift,
    invoke, mret, M_ret, ofError; simpl.
  destruct (buildIPPermissionInfos _) as [infos|e]; [|done].
  destruct (ReconcileTags _ _ _ _ _ _) as [e|]; [done|].
  by destruct (ReconcileIngress _ _ _ _ _).
Qed.

End ManagerFacts.

(** ** The delete loop under persistent refusal *)

Lemma ticks_length (n : nat) (t : Z) (interval : Duration) :
  length (ticks n t interval) = n.
Proof. revert t. induction n as [|n IH]; intros t; simpl; [done|]. by rewrite IH. Qed.

Lemma ticks_bounds (n : nat) (t : Z) (interval : Duration) (x : Z) :
  0 < interval → x ∈ ticks n t interval → t < x ≤ t + Z.of_nat n * interval.
Proof.
  intros Hi. revert t. induction n as [|n IH]; intros t; simpl.
  - by intros ?%elem_of_nil.
  - intros [->|Hx%IH]%elem_of_cons; nia.
Qed.

Lemma ticksBefore_spec (t s : Z) (interval : Duration) :
  0 < interval → t < s →
  t + Z.of_nat (ticksBefore t s interval) * interval < s
  ∧ s ≤ t + (Z.of_nat (ticksBefore t s interval) + 1) * interval.
Proof.
  intros Hi Hts. unfold ticksBefore.
  assert (0 ≤ (s - t - 1) / interval) by (apply Z.div_pos; lia).
  rewrite Z2Nat.id by done.
  pose proof (Z.div_mod (s - t - 1) interval ltac:(lia)).
  pose proof (Z.mod_pos_bound (s - t - 1) interval Hi).
  nia.
Qed.

Lemma ticksBefore_le (t s : Z) (interval d : Duration) :
  0 < interval → s ≤ t + d →
  (ticksBefore t s interval ≤ Z.to_nat (d / interval))%nat.
Proof.
  intros Hi Hs. unfold ticksBefore.
  assert ((s - t - 1) / interval ≤ d / interval) by (apply Z.div_le_mono; lia).
  lia.
Qed.

Lemma Done_WithTimeout (ctx : Context) (t : Z) (d : Duration) :
  Done (WithTimeout ctx t d)
  = Some (match Done ctx with Some s => Z.min s (t + d) | None => t + d end).
Proof.
  unfold Done, WithTimeout. simpl.
  destruct (cancelAt ctx), (deadline ctx); simpl; f_equal; lia.
Qed.

Lemma Done_WithTimeout_bound (ctx : Context) (t : Z) (d : Duration) :
  ∃ s, Done (WithTimeout ctx t d) = Some s ∧ s ≤ t + d.
Proof.
  rewrite Done_WithTimeout. eexists. split; [done|]. destruct (Done ctx); lia.
Qed.

Section DeleteFacts.
Context `{Networking} `{SDKConversion}.

Lemma deleteCondition_refused (m : defaultSecurityGroupManager) (ctx : Context)
    (req : DeleteSecurityGroupInput) (w : World) :
  alwaysRefused m →
  deleteCondition m ctx req w = ((false, None), record (DeleteSecurityGroupCall req) w).
Proof.
  intros Hm. unfold deleteCondition, invoke.
  destruct (Hm w ctx req) as [msg ->]. by rewrite bool_decide_eq_true_2.
Qed.

Lemma pollLoop_refused (m : defaultSecurityGroupManager) (ctx : Context)
    (sdkSG : SecurityGroupInfo) (interval : Duration) (s : Z) (n : nat) :
  alwaysRefused m → 0 < interval →
  ∀ (fuel : nat) (w : World),
    (n < fuel)%nat →
    now w + Z.of_nat n * interval < s →
    s ≤ now w + (Z.of_nat n + 1) * interval →
    pollLoop fuel interval (deleteCondition m ctx (deleteRequestOf sdkSG)) (Some s) w
    = Some (Some ErrWaitTimeout,
            {| now := s;
               calls := calls w ++ deleteCallsAt sdkSG (ticks n (now w) interval) |}).
Proof.
  intros Hm Hi. induction n as [|n IH]; intros fuel w Hfuel Hlo Hhi.
  - destruct fuel as [|fuel]; [lia|]. simpl. unfold sleep.
    rewrite bool_decide_eq_true_2 by lia.
    rewrite Z.max_r by lia. unfold advance, deleteCallsAt. simpl.
    by rewrite app_nil_r.
  - destruct fuel as [|fuel]; [lia|]. simpl. unfold sleep.
    rewrite bool_decide_eq_false_2 by lia.
    rewrite deleteCondition_refused by done.
    rewrite IH; simpl; [|lia..].
    unfold deleteCallsAt. simpl. by rewrite <- app_assoc.
Qed.

(** The whole run of [Delete] when every delete-call is refused and the
    derived context is done at instant [s]: one attempt at entry, one per
    tick before [s], then the poll gives up at [s]. *)
Lemma Delete_refused (m : defaultSecurityGroupManager) (ctx : Context)
    (sdkSG : SecurityGroupInfo) (w : World) (s : Z) (fuel : nat) :
  alwaysRefused m → 0 < waitSGDeletionPollInterval m →
  Done (WithTimeout ctx (now w) (waitSGDeletionTimeout m)) = Some s →
  (ticksBefore (now w) s (waitSGDeletionPollInterval m) < fuel)%nat →
  Delete fuel m ctx sdkSG w
  = Some (Some ErrWaitTimeout,
          {| now := Z.max (now w) s;
             calls := calls w ++ deleteCallsAt sdkSG
               (now w :: ticks (ticksBefore (now w) s (waitSGDeletionPollInterval m))
                           (now w) (waitSGDeletionPollInterval m)) |}).
Proof.
  intros Hm Hi Hs Hfuel. unfold Delete, PollImmediateUntil.
  rewrite Hs. fold (deleteRequestOf sdkSG).
  rewrite deleteCondition_refused by done. simpl.
  destruct (decide (s ≤ now w)) as [Hle|Hgt].
  - rewrite bool_decide_eq_true_2 by done.
    rewrite Z.max_l by done.
    replace (ticksBefore (now w) s (waitSGDeletionPollInterval m)) with 0%nat; [done|].
    unfold ticksBefore.
    assert ((s - now w - 1) / waitSGDeletionPollInterval m < 0); [|lia].
    apply Z.div_lt_upper_bound; lia.
  - rewrite bool_decide_eq_false_2 by done.
    destruct (ticksBefore_spec (now w) s (waitSGDeletionPollInterval m)) as [Hlo Hhi];
      [lia..|].
    rewrite (pollLoop_refused m _ sdkSG _ s
               (ticksBefore (now w) s (waitSGDeletionPollInterval m))); simpl;
      [|done..].
    rewrite Z.max_r by lia. unfold deleteCallsAt. simpl.
    by rewrite <- app_assoc.
Qed.

(** A delete attempt leaves the clock alone. *)
Lemma deleteCondition_now (m : defaultSecurityGroupManager) (ctx : Context)
    (req : DeleteSecurityGroupInput) (w : World) :
  now (deleteCondition m ctx req w).2 = now w.
Proof.
  unfold deleteCondition, invoke.
  destruct (DeleteSecurityGroupWithContext _ _ _ _) as [[]|[code msg| | | |]]; try done.
  by case_bool_decide.
Qed.

(** Whatever the provider answers, the loop of [Delete] ends: the stop
    channel is closed after finitely many ticks. *)
Lemma pollLoop_terminates (m : defaultSecurityGroupManager) (ctx : Context)
    (req : DeleteSecurityGroupInput) (interval : Duration) (s : Z) (n : nat) :
  0 < interval →
  ∀ (fuel : nat) (w : World),
    (n < fuel)%nat → s ≤ now w + (Z.of_nat n + 1) * interval →
    is_Some (pollLoop fuel interval (deleteCondition m ctx req) (Some s) w).
Proof.
  intros Hi. induction n as [|n IH]; intros fuel w Hfuel Hs;
    (destruct fuel as [|fuel]; [lia|]); simpl; unfold sleep;
    case_bool_decide as Hstop; try done; try lia.
  pose proof (deleteCondition_now m ctx req (advance (now w + interval) w)) as Hnow.
  destruct (deleteCondition _ _ _ _) as [[[] [err|]] w']; simpl in *; try done.
  apply IH; [lia|]. rewrite Hnow. lia.
Qed.

Lemma Delete_terminates (m : defaultSecurityGroupManager) (ctx : Context)
    (sdkSG : SecurityGroupInfo) (w : World) (fuel : nat) :
  0 < waitSGDeletionPollInterval m →
  (Z.to_nat (waitSGDeletionTimeout m / waitSGDeletionPollInterval m) < fuel)%nat →
  is_Some (Delete fuel m ctx sdkSG w).
Proof.
  intros Hi Hfuel. unfold Delete, PollImmediateUntil.
  destruct (Done_WithTimeout_bound ctx (now w) (waitSGDeletionTimeout m))
    as (s & -> & Hs).
  pose proof (deleteCondition_now m (WithTimeout ctx (now w) (waitSGDeletionTimeout m))
                {| DeleteSecurityGroupInput_GroupId :=
                     awssdk_String (SecurityGroupID sdkSG) |} w) as Hnow.
  destruct (deleteCondition _ _ _ _) as [[[] [err|]] w']; simpl in *; try done.
  case_bool_decide; [done|].
  apply (pollLoop_terminates _ _ _ _ _
           (Z.to_nat (waitSGDeletionTimeout m / waitSGDeletionPollInterval m)));
    [done..|].
  rewrite Hnow.
  pose proof (Z.div_mod (waitSGDeletionTimeout m) (waitSGDeletionPollInterval m)
                ltac:(lia)).
  pose proof (Z.mod_pos_bound (waitSGDeletionTimeout m) (waitSGDeletionPollInterval m) Hi).
  destruct (decide (0 ≤ waitSGDeletionTimeout m)).
  - rewrite Z2Nat.id by (apply Z.div_pos; lia). nia.
  - nia.
Qed.

End DeleteFacts.

(** * The claims *)

(** ** Translation of one rule *)

(** C1, as stated, does not hold: the rule [dualStackRule] has two target
    kinds populated (one IPv4 range and one IPv6 range), yet its
    translation succeeds, with the IPv4 range as target. *)
Lemma two_populated_kinds_translate :
  populatedKinds dualStackRule = 2%nat
  ∧ buildIPPermissionInfo dualStackRule
    = Ok (SpecModel.mk SpecModel.CIDR "tcp" (Some 443) (Some 443) "0.0.0.0/0" [""]).
Proof. split; reflexivity. Qed.

(** C1, amended: translating a rule fails exactly when none of its three
    target lists has length one, and then with the error
    "invalid ipPermission"; this is the case of every rule with no target
    kind populated.  (A rule with several kinds populated is translated
    as soon as one of its lists is a singleton.) *)
Theorem buildIPPermissionInfo_fails_iff `{Networking} (r : IPPermission) :
  (is_Ok (buildIPPermissionInfo r) = false
   ↔ length (IPRanges r) ≠ 1%nat ∧ length (IPv6Range r) ≠ 1%nat
     ∧ length (UserIDGroupPairs r) ≠ 1%nat)
  ∧ (is_Ok (buildIPPermissionInfo r) = true
     ∨ buildIPPermissionInfo r = Err (ErrorsNew "invalid ipPermission"))
  ∧ (populatedKinds r = 0%nat → is_Ok (buildIPPermissionInfo r) = false).
Proof.
  unfold buildIPPermissionInfo, populatedKinds.
  destruct_targets r; simpl;
    (split_and!; [split; [intros; split_and!; (done || lia)
                         | intros (? & ? & ?); (done || lia)]
                 | (by left) || (by right) | (done || lia)]).
Qed.

(** C1, amended, at the rule without any target. *)
Lemma buildIPPermissionInfo_fails_iff_witness :
  is_Ok (buildIPPermissionInfo emptyRule) = false.
Proof.
  apply (buildIPPermissionInfo_fails_iff emptyRule). reflexivity.
Defined.

(** C5: a rule with exactly one target kind populated, by exactly one
    entry, is translated, and the descriptor is built by the constructor
    of that kind from the rule's own protocol and ports, the entry's
    target value and the labels of the entry's description. *)
Theorem buildIPPermissionInfo_single_target `{Networking} (r : IPPermission) :
  populatedKinds r = 1%nat → targetEntries r = 1%nat →
  is_Ok (buildIPPermissionInfo r) = true
  ∧ (∀ x, IPRanges r = [x] →
       buildIPPermissionInfo r
       = Ok (NewCIDRIPPermission (IPProtocol r) (FromPort r) (ToPort r) (CIDRIP x)
               (NewIPPermissionLabelsForRawDescription (IPRange_Description x))))
  ∧ (∀ x, IPv6Range r = [x] →
       buildIPPermissionInfo r
       = Ok (NewCIDRv6IPPermission (IPProtocol r) (FromPort r) (ToPort r) (CIDRIPv6 x)
               (NewIPPermissionLabelsForRawDescription (IPv6Range_Description x))))
  ∧ (∀ p, UserIDGroupPairs r = [p] →
       buildIPPermissionInfo r
       = Ok (NewGroupIDIPPermission (IPProtocol r) (FromPort r) (ToPort r) (GroupID p)
               (NewIPPermissionLabelsForRawDescription (UserIDGroupPair_Description p)))).
Proof.
  unfold buildIPPermissionInfo, populatedKinds, targetEntries.
  destruct_targets r; simpl; intros Hk Hn; try lia;
    split_and!; try done; by intros ? [= <-].
Qed.

(** C5 at the HTTPS rule: protocol, ports and CIDR come out unchanged. *)
Lemma buildIPPermissionInfo_single_target_witness :
  buildIPPermissionInfo httpsRule
  = Ok (SpecModel.mk SpecModel.CIDR "tcp" (Some 443) (Some 443) "0.0.0.0/0" [""]).
Proof.
  destruct (buildIPPermissionInfo_single_target httpsRule) as (_ & Hcidr & _);
    [reflexivity..|].
  exact (Hcidr {| CIDRIP := "0.0.0.0/0"; IPRange_Description := "" |} eq_refl).
Defined.

(** ** Translation of a rule-set, and what Create and Update do with it *)

Section RuleSets.
Context `{Networking} `{SDKConversion}.


(** C10: the empty rule list is translated to the empty list; [Create]
    then issues its create-call, and once that call has answered it
    reconciles ingress on the new id with the empty list; [Update]
    reconciles tags, and once that has succeeded it reconciles ingress on
    the existing id with the empty list. *)
Theorem no_ingress_rules (m : defaultSecurityGroupManager) (ctx : Context)
    (resSG : SecurityGroup) (sdkSG : SecurityGroupInfo) (w : World) :
  Ingress (Spec resSG) = [] →
  buildIPPermissionInfos (Ingress (Spec resSG)) = Ok []
  ∧ (∃ rest, calls (Create m ctx resSG w).2
             = calls w ++ (now w, CreateSecurityGroupCall (requestOf m resSG)) :: rest)
  ∧ (∀ resp,
       CreateSecurityGroupWithContext (ec2Client m) w ctx (requestOf m resSG) = Ok resp →
       calls (Create m ctx resSG w).2
       = calls w ++ [ (now w, CreateSecurityGroupCall (requestOf m resSG));
                      (now w, ReconcileIngressCall (awssdk_StringValue (GroupId resp)) []) ])
  ∧ (∃ rest, calls (Update m ctx resSG sdkSG w).2
             = calls w ++ (now w, tagsCallOf m resSG sdkSG) :: rest)
  ∧ (ReconcileTags (taggingManager m) w ctx (SecurityGroupID sdkSG)
       (ResourceTags (trackingProvider m) (Stack resSG) resSG (Tags (Spec resSG)))
       [ WithCurrentTags (SecurityGroupInfo_Tags sdkSG);
         WithIgnoredTagKeys (LegacyTagKeys (trackingProvider m)) ] = None →
     calls (Update m ctx resSG sdkSG w).2
     = calls w ++ [ (now w, tagsCallOf m resSG sdkSG);
                    (now w, ReconcileIngressCall (SecurityGroupID sdkSG) []) ]).
Proof.
  intros Hnil. rewrite Create_run, Update_run, Hnil.
  change (buildIPPermissionInfos []) with (Ok (@nil IPPermissionInfo)). simpl.
  split_and!.
  - done.
  - destruct (CreateSecurityGroupWithContext _ _ _ _) as [resp|e]; simpl.
    + destruct (ReconcileIngress _ _ _ _ _); simpl; rewrite <- app_assoc; by eexists.
    + by eexists.
  - intros resp ->. simpl.
    destruct (ReconcileIngress _ _ _ _ _); simpl; by rewrite <- app_assoc.
  - destruct (ReconcileTags _ _ _ _ _ _); simpl.
    + by eexists.
    + destruct (ReconcileIngress _ _ _ _ _); simpl; rewrite <- app_assoc; by eexists.
  - intros ->. simpl.
    destruct (ReconcileIngress _ _ _ _ _); simpl; by rewrite <- app_assoc.
Qed.

End RuleSets.


(** C10 at a spec without rules: the trace of [Create]. *)
Lemma no_ingress_rules_witness :
  calls (Create (stubManager None) Background (exampleSG []) startWorld).2
  = [ (0, CreateSecurityGroupCall (requestOf (stubManager None) (exampleSG [])));
      (0, ReconcileIngressCall "sg-0123" []) ].
Proof.
  destruct (no_ingress_rules (stubManager None) Background (exampleSG []) existingSG
              startWorld) as (_ & _ & Hc & _); [reflexivity|].
  exact (Hc {| GroupId := Some "sg-0123" |} eq_refl).
Defined.

(** ** Create and Update *)

Section CreateUpdate.
Context `{Networking} `{SDKConversion}.

(** C7: on a spec whose only ingress rule is tcp 443-443 from
    0.0.0.0/0, when the create-call answers [resp] and the ingress
    reconciliation succeeds, [Create] issues exactly two calls: the
    create-call, whose request holds the network id, the name, the
    description and, as the tags of the one tag specification, the tag
    set that the tracking provider merged from the user tags — the
    request type has no place for ingress rules —, then [ReconcileIngress]
    on the id of [resp] with the single CIDR permission
    tcp/443/443/0.0.0.0/0; and it returns the status holding that id. *)
Theorem Create_single_cidr_rule (m : defaultSecurityGroupManager) (ctx : Context)
    (resSG : SecurityGroup) (w : World) (description : string)
    (resp : CreateSecurityGroupOutput) :
  let rule :=
    {| IPProtocol := "tcp"; FromPort := Some 443; ToPort := Some 443;
       IPRanges := [ {| CIDRIP := "0.0.0.0/0"; IPRange_Description := description |} ];
       IPv6Range := []; UserIDGroupPairs := [] |} in
  let permission :=
    NewCIDRIPPermission "tcp" (Some 443) (Some 443) "0.0.0.0/0"
      (NewIPPermissionLabelsForRawDescription description) in
  let req :=
    {| VpcId := Some (vpcID m);
       CreateSecurityGroupInput_GroupName := Some (GroupName (Spec resSG));
       CreateSecurityGroupInput_Description := Some (Description (Spec resSG));
       TagSpecifications :=
         [ {| ResourceType := Some "security-group";
              TagSpecification_Tags :=
                convertTagsToSDKTags
                  (ResourceTags (trackingProvider m) (Stack resSG) resSG
                     (Tags (Spec resSG))) |} ] |} in
  let sgID := awssdk_StringValue (GroupId resp) in
  Ingress (Spec resSG) = [rule] →
  CreateSecurityGroupWithContext (ec2Client m) w ctx req = Ok resp →
  ReconcileIngress (networkingSGReconciler m) (record (CreateSecurityGroupCall req) w)
    ctx sgID [permission] = None →
  buildIPPermissionInfos (Ingress (Spec resSG)) = Ok [permission]
  ∧ Create m ctx resSG w
    = (Ok {| StatusGroupID := sgID |},
       {| now := now w;
          calls := calls w ++ [ (now w, CreateSecurityGroupCall req);
                                (now w, ReconcileIngressCall sgID [permission]) ] |}).
Proof.
  intros rule permission req sgID Hrules Hcreate Hingress.
  assert (buildIPPermissionInfos (Ingress (Spec resSG)) = Ok [permission]) as Hinfos
    by (by rewrite Hrules).
  split; [done|].
  rewrite Create_run, Hinfos. unfold requestOf, createRequest, awssdk_String.
  fold req. simpl. rewrite Hcreate. fold sgID. rewrite Hingress.
  unfold record. simpl. by rewrite <- app_assoc.
Qed.

(** C8: whatever the spec and the existing group, the calls that [Update]
    adds to the trace contain no create-call; they are the tag
    reconciliation on the existing id — with the merged desired tags, the
    existing group's tags as current tags and the provider's legacy keys
    as ignored keys — followed, when it succeeded, by the ingress
    reconciliation on the existing id; and when [Update] succeeds both
    calls were issued and the status holds exactly the existing id. *)
Theorem Update_never_creates (m : defaultSecurityGroupManager) (ctx : Context)
    (resSG : SecurityGroup) (sdkSG : SecurityGroupInfo) (w : World) :
  ∃ issued,
    calls (Update m ctx resSG sdkSG w).2 = calls w ++ issued
    ∧ Forall (λ tc, isCreateCall tc.2 = false) issued
    ∧ (issued = []
       ∨ issued = [ (now w, tagsCallOf m resSG sdkSG) ]
       ∨ ∃ infos,
           buildIPPermissionInfos (Ingress (Spec resSG)) = Ok infos
           ∧ issued = [ (now w, tagsCallOf m resSG sdkSG);
                        (now w, ReconcileIngressCall (SecurityGroupID sdkSG) infos) ])
    ∧ (∀ status,
         (Update m ctx resSG sdkSG w).1 = Ok status →
         status = {| StatusGroupID := SecurityGroupID sdkSG |}
         ∧ ∃ infos,
             buildIPPermissionInfos (Ingress (Spec resSG)) = Ok infos
             ∧ issued = [ (now w, tagsCallOf m resSG sdkSG);
                          (now w, ReconcileIngressCall (SecurityGroupID sdkSG) infos) ]).
Proof.
  rewrite Update_run.
  destruct (buildIPPermissionInfos _) as [infos|e]; simpl;
    [|exists []; rewrite app_nil_r; split_and!; [done|constructor|by left|done]].
  destruct (ReconcileTags _ _ _ _ _ _) as [e|]; simpl.
  { exists [(now w, tagsCallOf m resSG sdkSG)].
    split_and!; [done|by repeat constructor|by right; left|done]. }
  exists [(now w, tagsCallOf m resSG sdkSG);
          (now w, ReconcileIngressCall (SecurityGroupID sdkSG) infos)].
  destruct (ReconcileIngress _ _ _ _ _) as [e|]; simpl; rewrite <- app_assoc;
    (split_and!; [done|by repeat constructor|right; right; by exists infos|]).
  - done.
  - intros status [= <-]. split; [done|]. by exists infos.
Qed.

(** What the constructor does with the deletion settings: it takes the
    owning-network id as a parameter but has no parameter for the poll
    interval or the deadline, and every manager it builds carries the two
    default values. *)
Lemma constructor_sets_defaults (ec2 : EC2) (tracking : TrackingProvider)
    (tagging : TaggingManager) (reconciler : SecurityGroupReconciler) (vpc : string)
    (log : Logger) :
  let m := NewDefaultSecurityGroupManager ec2 tracking tagging reconciler vpc log in
  waitSGDeletionPollInterval m = defaultWaitSGDeletionPollInterval
  ∧ waitSGDeletionTimeout m = defaultWaitSGDeletionTimeout
  ∧ defaultWaitSGDeletionPollInterval = 2 * Second
  ∧ defaultWaitSGDeletionTimeout = 2 * Minute
  ∧ 2 * Second = 2000000000 * Nanosecond
  ∧ 2 * Minute = 120000000000 * Nanosecond
  ∧ vpcID m = vpc.
Proof. simpl. by split_and!. Qed.

End CreateUpdate.

(** The arguments of the constructor do not reach the deletion settings:
    a manager with other settings is built by setting its fields. *)
Lemma constructor_cannot_override :
  ¬ ∃ (N : Networking) ec2 tracking tagging reconciler vpc log,
      let m := NewDefaultSecurityGroupManager ec2 tracking tagging reconciler vpc log in
      waitSGDeletionPollInterval m ≠ defaultWaitSGDeletionPollInterval
      ∨ waitSGDeletionTimeout m ≠ defaultWaitSGDeletionTimeout.
Proof.
  intros (N & ec2 & tracking & tagging & reconciler & vpc & log & [Hne|Hne]);
    by apply Hne.
Qed.

(** C7 with the collaborators of the worked scenario: the tag set sent
    with the create-call holds the tracking tag and the user tag. *)
Lemma Create_single_cidr_rule_witness :
  (Create (stubManager None) Background (exampleSG [httpsRule]) startWorld).1
  = Ok {| StatusGroupID := "sg-0123" |}
  ∧ ResourceTags (trackingProvider (stubManager None)) "default/web"
      (exampleSG [httpsRule]) {[ "team" := "edge" ]}
    = {[ "elbv2.k8s.aws/cluster" := "prod" ]} ∪ {[ "team" := "edge" ]}.
Proof.
  split; [|reflexivity].
  destruct (Create_single_cidr_rule (stubManager None) Background (exampleSG [httpsRule])
              startWorld "" {| GroupId := Some "sg-0123" |}) as [_ ->];
    reflexivity.
Defined.

(** ** Delete *)

Section DeleteClaims.
Context `{Networking} `{SDKConversion}.

(** C4: when every delete-call is refused with the dependency conflict
    and the caller's context is never done, [Delete] ends at the instant
    [timeout] after its entry with the timeout error of the poll, having
    issued nothing but delete-calls of the group: a first one at entry,
    at least [timeout / interval] of them in all, none at or after the
    deadline. *)
Theorem Delete_times_out (m : defaultSecurityGroupManager) (ctx : Context)
    (sdkSG : SecurityGroupInfo) (w : World) (fuel : nat) :
  let interval := waitSGDeletionPollInterval m in
  let timeout := waitSGDeletionTimeout m in
  alwaysRefused m → Done ctx = None → 0 < interval → 0 < timeout →
  (Z.to_nat (timeout / interval) < fuel)%nat →
  ∃ attempts,
    Delete fuel m ctx sdkSG w
    = Some (Some ErrWaitTimeout,
            {| now := now w + timeout;
               calls := calls w ++ deleteCallsAt sdkSG attempts |})
    ∧ head attempts = Some (now w)
    ∧ timeout / interval ≤ Z.of_nat (length attempts)
    ∧ Forall (λ t, now w ≤ t < now w + timeout) attempts.
Proof.
  intros interval timeout Hm Hctx Hi Ht Hfuel. subst interval timeout.
  pose proof (Done_WithTimeout ctx (now w) (waitSGDeletionTimeout m)) as Hdone.
  rewrite Hctx in Hdone.
  pose proof (ticksBefore_le (now w) (now w + waitSGDeletionTimeout m)
                (waitSGDeletionPollInterval m) (waitSGDeletionTimeout m) Hi ltac:(lia)).
  destruct (ticksBefore_spec (now w) (now w + waitSGDeletionTimeout m)
              (waitSGDeletionPollInterval m)) as [Hlo Hhi]; [lia..|].
  exists (now w :: ticks (ticksBefore (now w) (now w + waitSGDeletionTimeout m)
                            (waitSGDeletionPollInterval m))
                     (now w) (waitSGDeletionPollInterval m)).
  split_and!.
  - rewrite (Delete_refused m ctx sdkSG w (now w + waitSGDeletionTimeout m)) by (done || lia).
    by rewrite Z.max_r by lia.
  - done.
  - simpl length. rewrite ticks_length.
    apply Z.div_le_upper_bound; [done|]. lia.
  - constructor; [lia|]. apply Forall_forall. intros x Hx.
    apply ticks_bounds in Hx; [|done]. lia.
Qed.

End DeleteClaims.

(** ** The worked scenarios of Delete *)

Lemma stubManager_alwaysRefused : alwaysRefused (stubManager None).
Proof. intros w ctx req. by eexists. Qed.

(** C4 with the default settings: two minutes of refusals, at least sixty
    delete-calls, then the timeout error. *)
Lemma Delete_times_out_witness :
  ∃ attempts,
    Delete 61 (stubManager None) Background existingSG startWorld
    = Some (Some ErrWaitTimeout,
            {| now := 0 + 2 * Minute; calls := [] ++ deleteCallsAt existingSG attempts |})
    ∧ head attempts = Some 0
    ∧ 60 ≤ Z.of_nat (length attempts)
    ∧ Forall (λ t, 0 ≤ t < 0 + 2 * Minute) attempts.
Proof.
  apply (Delete_times_out (stubManager None) Background existingSG startWorld 61).
  - apply stubManager_alwaysRefused.
  - reflexivity.
  - reflexivity.
  - reflexivity.
  - vm_compute. lia.
Defined.

(** C2, as stated, does not hold: with a provider that keeps refusing,
    the caller cancels after three seconds, while [Delete] sleeps between
    its second and third attempts; [Delete] stops at that instant, and
    the error it returns is the timeout error of the poll, the one it
    also returns when nobody cancels and the two minutes elapse. *)
Lemma cancellation_returns_timeout_error :
  CtxErr cancelledAfter3s (3 * Second) = Some ContextCanceled
  ∧ Delete 61 (stubManager None) cancelledAfter3s existingSG startWorld
    = Some (Some ErrWaitTimeout,
            {| now := 3 * Second;
               calls := deleteCallsAt existingSG [0; 2 * Second] |})
  ∧ fst <$> Delete 61 (stubManager None) Background existingSG startWorld
    = Some (Some ErrWaitTimeout).
Proof. split_and!; vm_compute; reflexivity. Qed.

(** Two refusals, then success, with the default settings: [Delete]
    returns nil after four seconds and three delete-calls. *)
Example Delete_two_refusals_then_success :
  Delete 61 (stubManager (Some 2%nat)) Background existingSG startWorld
  = Some (None,
          {| now := 4 * Second;
             calls := deleteCallsAt existingSG [0; 2 * Second; 4 * Second] |}).
Proof. vm_compute. reflexivity. Qed.

(** No refusal: the group is deleted by the attempt made at entry. *)
Example Delete_first_attempt_succeeds :
  Delete 61 (stubManager (Some 0%nat)) Background existingSG startWorld
  = Some (None, {| now := 0; calls := deleteCallsAt existingSG [0] |}).
Proof. vm_compute. reflexivity. Qed.

(** * Further properties of the code *)

(** ** Translation *)

(** X1: the three target lists are tried in a fixed order.  A single IPv4
    range decides the descriptor whatever the other lists hold; a single
    IPv6 range decides it when the IPv4 list is not a singleton; a single
    peer group decides it only when neither of the other lists is a
    singleton. *)
Theorem buildIPPermissionInfo_precedence `{Networking} (r : IPPermission) :
  (∀ x, IPRanges r = [x] →
     buildIPPermissionInfo r
     = Ok (NewCIDRIPPermission (IPProtocol r) (FromPort r) (ToPort r) (CIDRIP x)
             (NewIPPermissionLabelsForRawDescription (IPRange_Description x))))
  ∧ (∀ x, length (IPRanges r) ≠ 1%nat → IPv6Range r = [x] →
       buildIPPermissionInfo r
       = Ok (NewCIDRv6IPPermission (IPProtocol r) (FromPort r) (ToPort r) (CIDRIPv6 x)
               (NewIPPermissionLabelsForRawDescription (IPv6Range_Description x))))
  ∧ (∀ p, length (IPRanges r) ≠ 1%nat → length (IPv6Range r) ≠ 1%nat →
       UserIDGroupPairs r = [p] →
       buildIPPermissionInfo r
       = Ok (NewGroupIDIPPermission (IPProtocol r) (FromPort r) (ToPort r) (GroupID p)
               (NewIPPermissionLabelsForRawDescription (UserIDGroupPair_Description p)))).
Proof.
  unfold buildIPPermissionInfo.
  destruct_targets r; simpl; split_and!; intros; simplify_eq; done.
Qed.

(** X1 on a rule with one entry of each kind (the IPv4 range is taken)
    and on a rule with two IPv4 ranges (the IPv6 range is taken). *)
Lemma buildIPPermissionInfo_precedence_witness :
  buildIPPermissionInfo tripleRule
  = Ok (SpecModel.mk SpecModel.CIDR "tcp" (Some 443) (Some 443) "10.0.0.0/8" ["v4"])
  ∧ buildIPPermissionInfo crowdedRule
    = Ok (SpecModel.mk SpecModel.CIDRv6 "tcp" (Some 443) (Some 443) "::/0" ["v6"]).
Proof.
  destruct (buildIPPermissionInfo_precedence tripleRule) as (H4 & _ & _).
  destruct (buildIPPermissionInfo_precedence crowdedRule) as (_ & H6 & _).
  split.
  - exact (H4 {| CIDRIP := "10.0.0.0/8"; IPRange_Description := "v4" |} eq_refl).
  - apply (H6 {| CIDRIPv6 := "::/0"; IPv6Range_Description := "v6" |}).
    + simpl. lia.
    + reflexivity.
Defined.

(** X2: translating the concatenation of two rule lists gives the
    concatenation of their translations; it fails with the error of the
    first list when that one fails, and otherwise with the error of the
    second. *)
Theorem buildIPPermissionInfos_app `{Networking} (a b : list IPPermission) :
  buildIPPermissionInfos (a ++ b)
  = match buildIPPermissionInfos a with
    | Err e => Err e
    | Ok infosA =>
        match buildIPPermissionInfos b with
        | Err e => Err e
        | Ok infosB => Ok (infosA ++ infosB)
        end
    end.
Proof.
  induction a as [|r a IH]; simpl.
  - change (buildIPPermissionInfos []) with (Ok (@nil IPPermissionInfo)).
    by destruct (buildIPPermissionInfos b).
  - rewrite !buildIPPermissionInfos_cons, IH.
    destruct (buildIPPermissionInfo r); [|done].
    destruct (buildIPPermissionInfos a); [|done].
    by destruct (buildIPPermissionInfos b).
Qed.

(** X3: the translation of a rule list fails only because of one of its
    rules: the error is always "invalid ipPermission", and some rule of
    the list has no target list of length one. *)
Theorem buildIPPermissionInfos_fails_only_on_invalid_rule `{Networking}
    (rules : list IPPermission) (e : GoError) :
  buildIPPermissionInfos rules = Err e →
  e = ErrorsNew "invalid ipPermission"
  ∧ ∃ r, r ∈ rules
         ∧ length (IPRanges r) ≠ 1%nat ∧ length (IPv6Range r) ≠ 1%nat
         ∧ length (UserIDGroupPairs r) ≠ 1%nat.
Proof.
  induction rules as [|r rules IH]; [done|].
  rewrite buildIPPermissionInfos_cons.
  destruct (buildIPPermissionInfo r) as [i|e'] eqn:Hr.
  - destruct (buildIPPermissionInfos rules) as [infos|e'']; [done|].
    intros [= <-]. destruct IH as (-> & r' & Hin & Hlen); [done|].
    split; [done|]. exists r'. split; [by apply list_elem_of_further|done].
  - intros [= <-]. split; [by eapply buildIPPermissionInfo_error|].
    exists r. split; [apply list_elem_of_here|].
    revert Hr. unfold buildIPPermissionInfo.
    destruct_targets r; simpl; intros; split_and!; (done || lia).
Qed.

(** X3 on a list whose second rule has no target. *)
Lemma buildIPPermissionInfos_fails_only_on_invalid_rule_witness :
  ∃ r, r ∈ [httpsRule; emptyRule]
       ∧ length (IPRanges r) ≠ 1%nat ∧ length (IPv6Range r) ≠ 1%nat
       ∧ length (UserIDGroupPairs r) ≠ 1%nat.
Proof.
  apply (buildIPPermissionInfos_fails_only_on_invalid_rule [httpsRule; emptyRule]
           (ErrorsNew "invalid ipPermission")).
  reflexivity.
Defined.

(** ** Create *)

Section CreateFacts.
Context `{Networking} `{SDKConversion}.

(** X4: whatever the collaborators answer, [Create] leaves the clock
    alone and adds to the trace nothing, or its create-call, or its
    create-call followed by one ingress reconciliation: never a tag
    reconciliation, never a delete-call — a group whose ingress
    reconciliation failed is left in place.  It issues no call exactly
    when the rules cannot be translated, and when it succeeds the ingress
    reconciliation was made on the id of the returned status. *)
Theorem Create_trace (m : defaultSecurityGroupManager) (ctx : Context)
    (resSG : SecurityGroup) (w : World) :
  ∃ issued,
    (Create m ctx resSG w).2 = {| now := now w; calls := calls w ++ issued |}
    ∧ Forall (λ tc, isDeleteCall tc.2 = false) issued
    ∧ (issued = []
       ∨ issued = [ (now w, CreateSecurityGroupCall (requestOf m resSG)) ]
       ∨ ∃ sgID infos,
           buildIPPermissionInfos (Ingress (Spec resSG)) = Ok infos
           ∧ issued = [ (now w, CreateSecurityGroupCall (requestOf m resSG));
                        (now w, ReconcileIngressCall sgID infos) ])
    ∧ (issued = [] ↔ is_Ok (buildIPPermissionInfos (Ingress (Spec resSG))) = false)
    ∧ (∀ status,
         (Create m ctx resSG w).1 = Ok status →
         ∃ infos,
           buildIPPermissionInfos (Ingress (Spec resSG)) = Ok infos
           ∧ issued = [ (now w, CreateSecurityGroupCall (requestOf m resSG));
                        (now w, ReconcileIngressCall (StatusGroupID status) infos) ]).
Proof.
  rewrite Create_run.
  destruct (buildIPPermissionInfos _) as [infos|e]; simpl.
  - destruct (CreateSecurityGroupWithContext _ _ _ _) as [resp|e]; simpl.
    + exists [ (now w, CreateSecurityGroupCall (requestOf m resSG));
               (now w, ReconcileIngressCall (awssdk_StringValue (GroupId resp)) infos) ].
      destruct (ReconcileIngress _ _ _ _ _) as [e|]; simpl; unfold record; simpl;
        rewrite <- app_assoc;
        (split_and!;
         [done | by repeat constructor | right; right; by eexists _, _ | done |]).
      * done.
      * intros status [= <-]. by exists infos.
    + exists [ (now w, CreateSecurityGroupCall (requestOf m resSG)) ].
      split_and!; [done | by repeat constructor | by right; left | done | done].
  - exists []. rewrite app_nil_r. destruct w.
    split_and!; [done | constructor | by left | done | done].
Qed.

(** X5: the errors of the collaborators come back from [Create] as they
    are.  A create-call that fails ends [Create] before any ingress
    reconciliation; an ingress reconciliation that fails ends it after
    the create-call, which is not undone. *)
Theorem Create_failures (m : defaultSecurityGroupManager) (ctx : Context)
    (resSG : SecurityGroup) (w : World) (infos : list IPPermissionInfo) :
  let req := requestOf m resSG in
  buildIPPermissionInfos (Ingress (Spec resSG)) = Ok infos →
  (∀ e,
     CreateSecurityGroupWithContext (ec2Client m) w ctx req = Err e →
     Create m ctx resSG w
     = (Err e, {| now := now w;
                  calls := calls w ++ [ (now w, CreateSecurityGroupCall req) ] |}))
  ∧ (∀ resp e,
       CreateSecurityGroupWithContext (ec2Client m) w ctx req = Ok resp →
       ReconcileIngress (networkingSGReconciler m)
         (record (CreateSecurityGroupCall req) w) ctx
         (awssdk_StringValue (GroupId resp)) infos = Some e →
       Create m ctx resSG w
       = (Err e,
          {| now := now w;
             calls := calls w ++
               [ (now w, CreateSecurityGroupCall req);
                 (now w, ReconcileIngressCall (awssdk_StringValue (GroupId resp))
                           infos) ] |})).
Proof.
  intros req Hrules. rewrite Create_run, Hrules. fold req. simpl. split.
  - by intros e ->.
  - intros resp e -> Hingress. simpl. rewrite Hingress. unfold record. simpl.
    by rewrite <- app_assoc.
Qed.

(** X6: [Create] takes the id from the answer of the create-call without
    looking at it: when the answer holds no group id, ingress is
    reconciled on the empty id and the returned status holds the empty
    id. *)
Theorem Create_without_group_id (m : defaultSecurityGroupManager) (ctx : Context)
    (resSG : SecurityGroup) (w : World) (infos : list IPPermissionInfo) :
  buildIPPermissionInfos (Ingress (Spec resSG)) = Ok infos →
  CreateSecurityGroupWithContext (ec2Client m) w ctx (requestOf m resSG)
  = Ok {| GroupId := None |} →
  ReconcileIngress (networkingSGReconciler m)
    (record (CreateSecurityGroupCall (requestOf m resSG)) w) ctx "" infos = None →
  Create m ctx resSG w
  = (Ok {| StatusGroupID := "" |},
     {| now := now w;
        calls := calls w ++ [ (now w, CreateSecurityGroupCall (requestOf m resSG));
                              (now w, ReconcileIngressCall "" infos) ] |}).
Proof.
  intros Hrules Hcreate Hingress. rewrite Create_run, Hrules. simpl.
  rewrite Hcreate. simpl. rewrite Hingress. unfold record. simpl.
  by rewrite <- app_assoc.
Qed.

(** X7: [Create] and [Update] treat a spec alike: when both succeed on
    the same spec, both hand the same permission list to the ingress
    reconciliation, and the tags of the create request are the conversion
    of the desired tag set that [Update] hands to the tag
    reconciliation. *)
Theorem Create_Update_agree (m : defaultSecurityGroupManager) (ctx ctx' : Context)
    (resSG : SecurityGroup) (sdkSG : SecurityGroupInfo) (w w' : World)
    (created updated : SecurityGroupStatus) :
  (Create m ctx resSG w).1 = Ok created →
  (Update m ctx' resSG sdkSG w').1 = Ok updated →
  ∃ infos desired,
    calls (Create m ctx resSG w).2
    = calls w ++
        [ (now w, CreateSecurityGroupCall
                    {| VpcId := Some (vpcID m);
                       CreateSecurityGroupInput_GroupName := Some (GroupName (Spec resSG));
                       CreateSecurityGroupInput_Description :=
                         Some (Description (Spec resSG));
                       TagSpecifications :=
                         [ {| ResourceType := Some "security-group";
                              TagSpecification_Tags := convertTagsToSDKTags desired |} ]
                    |});
          (now w, ReconcileIngressCall (StatusGroupID created) infos) ]
    ∧ calls (Update m ctx' resSG sdkSG w').2
      = calls w' ++
          [ (now w', ReconcileTagsCall (SecurityGroupID sdkSG) desired
                       [ WithCurrentTags (SecurityGroupInfo_Tags sdkSG);
                         WithIgnoredTagKeys (LegacyTagKeys (trackingProvider m)) ]);
            (now w', ReconcileIngressCall (StatusGroupID updated) infos) ].
Proof.
  rewrite Create_run, Update_run.
  destruct (buildIPPermissionInfos _) as [infos|e]; [|done]. simpl.
  destruct (CreateSecurityGroupWithContext _ _ _ _) as [resp|e]; [|done]. simpl.
  destruct (ReconcileIngress _ (record (CreateSecurityGroupCall _) w) _ _ _) as [e|];
    [done|]. simpl.
  destruct (ReconcileTags _ _ _ _ _ _) as [e|]; [done|]. simpl.
  destruct (ReconcileIngress _ _ _ _ _) as [e|]; [done|]. simpl.
  intros [= <-] [= <-].
  exists infos,
    (ResourceTags (trackingProvider m) (Stack resSG) resSG (Tags (Spec resSG))).
  simpl. by rewrite <- !app_assoc.
Qed.

(** X8: the errors of the collaborators come back from [Update] as they
    are.  A tag reconciliation that fails ends [Update] before any
    ingress reconciliation; an ingress reconciliation that fails ends it
    after the tags were reconciled. *)
Theorem Update_failures (m : defaultSecurityGroupManager) (ctx : Context)
    (resSG : SecurityGroup) (sdkSG : SecurityGroupInfo) (w : World)
    (infos : list IPPermissionInfo) :
  let sgID := SecurityGroupID sdkSG in
  let desired :=
    ResourceTags (trackingProvider m) (Stack resSG) resSG (Tags (Spec resSG)) in
  let opts := [ WithCurrentTags (SecurityGroupInfo_Tags sdkSG);
                WithIgnoredTagKeys (LegacyTagKeys (trackingProvider m)) ] in
  buildIPPermissionInfos (Ingress (Spec resSG)) = Ok infos →
  (∀ e,
     ReconcileTags (taggingManager m) w ctx sgID desired opts = Some e →
     Update m ctx resSG sdkSG w
     = (Err e, {| now := now w;
                  calls := calls w ++ [ (now w, ReconcileTagsCall sgID desired opts) ] |}))
  ∧ (∀ e,
       ReconcileTags (taggingManager m) w ctx sgID desired opts = None →
       ReconcileIngress (networkingSGReconciler m)
         (record (ReconcileTagsCall sgID desired opts) w) ctx sgID infos = Some e →
       Update m ctx resSG sdkSG w
       = (Err e,
          {| now := now w;
             calls := calls w ++ [ (now w, ReconcileTagsCall sgID desired opts);
                                   (now w, ReconcileIngressCall sgID infos) ] |})).
Proof.
  intros sgID desired opts Hrules. rewrite Update_run, Hrules. simpl.
  fold sgID desired opts. unfold tagsCallOf. fold sgID desired opts. split.
  - by intros e ->.
  - intros e -> Hingress. rewrite Hingress. unfold record. simpl.
    by rewrite <- app_assoc.
Qed.

End CreateFacts.

(** X5 with a provider that rejects the create-call. *)
Lemma Create_failures_witness :
  Create (managerOf brokenEC2 stubTaggingManager stubReconciler) Background
    (exampleSG [httpsRule]) startWorld
  = (Err unauthorized,
     {| now := 0;
        calls := [ (0, CreateSecurityGroupCall
                         (requestOf (managerOf brokenEC2 stubTaggingManager stubReconciler)
                            (exampleSG [httpsRule]))) ] |}).
Proof.
  destruct (@Create_failures SpecModel.networking _ (managerOf brokenEC2 stubTaggingManager stubReconciler)
              Background (exampleSG [httpsRule]) startWorld
              [SpecModel.mk SpecModel.CIDR "tcp" (Some 443) (Some 443) "0.0.0.0/0" [""]])
    as [Hcreate _]; [reflexivity|].
  exact (Hcreate unauthorized eq_refl).
Defined.

(** X6 with a provider that answers without a group id. *)
Lemma Create_without_group_id_witness :
  (Create (managerOf silentEC2 stubTaggingManager stubReconciler) Background
     (exampleSG [httpsRule]) startWorld).1
  = Ok {| StatusGroupID := "" |}.
Proof.
  rewrite (@Create_without_group_id SpecModel.networking _ (managerOf silentEC2 stubTaggingManager stubReconciler)
             Background (exampleSG [httpsRule]) startWorld
             [SpecModel.mk SpecModel.CIDR "tcp" (Some 443) (Some 443) "0.0.0.0/0" [""]]);
    reflexivity.
Defined.

(** X7 with the collaborators of the worked scenario. *)
Lemma Create_Update_agree_witness :
  ∃ infos desired,
    calls (Create (stubManager None) Background (exampleSG [httpsRule]) startWorld).2
    = [] ++
        [ (0, CreateSecurityGroupCall
                {| VpcId := Some "vpc-1";
                   CreateSecurityGroupInput_GroupName := Some "k8s-web";
                   CreateSecurityGroupInput_Description := Some "managed by the controller";
                   TagSpecifications :=
                     [ {| ResourceType := Some "security-group";
                          TagSpecification_Tags := convertTagsToSDKTags desired |} ] |});
          (0, ReconcileIngressCall "sg-0123" infos) ]
    ∧ calls (Update (stubManager None) Background (exampleSG [httpsRule]) existingSG
               startWorld).2
      = [] ++
          [ (0, ReconcileTagsCall "sg-0123" desired
                  [ WithCurrentTags {[ "team" := "core" ]};
                    WithIgnoredTagKeys ["kubernetes.io/cluster-name"] ]);
            (0, ReconcileIngressCall "sg-0123" infos) ].
Proof.
  exact (Create_Update_agree (stubManager None) Background Background
           (exampleSG [httpsRule]) existingSG startWorld startWorld
           {| StatusGroupID := "sg-0123" |} {| StatusGroupID := "sg-0123" |}
           eq_refl eq_refl).
Defined.

(** X8 with a tagging manager that fails: ingress is left alone. *)
Lemma Update_failures_witness :
  Update (managerOf (stubEC2 "sg-0123" None) brokenTaggingManager stubReconciler)
    Background (exampleSG [httpsRule]) existingSG startWorld
  = (Err unauthorized,
     {| now := 0;
        calls := [ (0, tagsCallOf
                         (managerOf (stubEC2 "sg-0123" None) brokenTaggingManager
                            stubReconciler)
                         (exampleSG [httpsRule]) existingSG) ] |}).
Proof.
  destruct (@Update_failures SpecModel.networking
              (managerOf (stubEC2 "sg-0123" None) brokenTaggingManager stubReconciler)
              Background (exampleSG [httpsRule]) existingSG startWorld
              [SpecModel.mk SpecModel.CIDR "tcp" (Some 443) (Some 443) "0.0.0.0/0" [""]])
    as [Htags _]; [reflexivity|].
  exact (Htags unauthorized eq_refl).
Defined.

(** ** Delete, whatever the provider answers *)

Lemma ticks_snoc (n : nat) (t : Z) (interval : Duration) :
  ticks (S n) t interval = ticks n t interval ++ [t + Z.of_nat (S n) * interval].
Proof.
  revert t. induction n as [|n IH]; intros t.
  - simpl. f_equal. lia.
  - change (ticks (S (S n)) t interval)
      with ((t + interval) :: ticks (S n) (t + interval) interval).
    rewrite IH. simpl. do 2 f_equal. f_equal. lia.
Qed.

Lemma conditionOutcome_refusal (r : result ()) :
  isRefusal r = true → conditionOutcome r = (false, None).
Proof. destruct r as [[]|e]; simpl; [done|]. by intros ->. Qed.

Lemma conditionOutcome_answer (r : result ()) :
  isRefusal r = false →
  conditionOutcome r = (is_Ok r, errorOf r)
  ∧ (is_Ok r = true → errorOf r = None)
  ∧ (is_Ok r = false → ∃ e, errorOf r = Some e).
Proof.
  destruct r as [[]|e]; simpl; [done|]. intros ->. split_and!; [done..|]. by exists e.
Qed.

Section DeleteMore.
Context `{Networking} `{SDKConversion}.

Lemma deleteCondition_outcome (m : defaultSecurityGroupManager) (ctx : Context)
    (req : DeleteSecurityGroupInput) (w : World) :
  deleteCondition m ctx req w
  = (conditionOutcome (DeleteSecurityGroupWithContext (ec2Client m) w ctx req),
     record (DeleteSecurityGroupCall req) w).
Proof.
  unfold deleteCondition, invoke, conditionOutcome, isDependencyViolation.
  destruct (DeleteSecurityGroupWithContext _ _ _ _) as [[]|[code msg| | | |]]; try done.
  by case_bool_decide.
Qed.

Lemma attemptWorld_0 (w : World) (sdkSG : SecurityGroupInfo) (interval : Duration) :
  attemptWorld w sdkSG interval 0 = w.
Proof.
  destruct w as [t cs]. unfold attemptWorld, deleteCallsAt. simpl.
  rewrite app_nil_r. f_equal. lia.
Qed.

Lemma attemptWorld_S (w : World) (sdkSG : SecurityGroupInfo) (interval : Duration)
    (j : nat) :
  advance (now w + Z.of_nat j * interval + interval)
    (record (DeleteSecurityGroupCall (deleteRequestOf sdkSG))
       (attemptWorld w sdkSG interval j))
  = attemptWorld w sdkSG interval (S j).
Proof.
  unfold advance, record, attemptWorld. cbn [now calls]. f_equal; [lia|].
  rewrite <- app_assoc. f_equal.
  destruct j as [|j].
  - unfold deleteCallsAt. simpl. do 2 f_equal. lia.
  - unfold attemptInstants. rewrite ticks_snoc. unfold deleteCallsAt.
    rewrite !fmap_cons, fmap_app. reflexivity.
Qed.

(** The loop after attempt [j] was refused, when the [d] attempts that
    follow are refused as well and the one after them is answered. *)
Lemma pollLoop_after_refusals (m : defaultSecurityGroupManager) (ctx : Context)
    (sdkSG : SecurityGroupInfo) (w : World) (interval : Duration) (s : Z) (d : nat) :
  0 < interval →
  ∀ (j fuel : nat),
    (d < fuel)%nat →
    now w + Z.of_nat (j + d + 1) * interval < s →
    (∀ i, (j < i < j + d + 1)%nat →
       isRefusal (DeleteSecurityGroupWithContext (ec2Client m)
                    (attemptWorld w sdkSG interval i) ctx (deleteRequestOf sdkSG))
       = true) →
    isRefusal (DeleteSecurityGroupWithContext (ec2Client m)
                 (attemptWorld w sdkSG interval (j + d + 1)) ctx (deleteRequestOf sdkSG))
    = false →
    pollLoop fuel interval (deleteCondition m ctx (deleteRequestOf sdkSG)) (Some s)
      (record (DeleteSecurityGroupCall (deleteRequestOf sdkSG))
         (attemptWorld w sdkSG interval j))
    = Some (errorOf (DeleteSecurityGroupWithContext (ec2Client m)
                       (attemptWorld w sdkSG interval (j + d + 1)) ctx
                       (deleteRequestOf sdkSG)),
            record (DeleteSecurityGroupCall (deleteRequestOf sdkSG))
              (attemptWorld w sdkSG interval (j + d + 1))).
Proof.
  intros Hi.
  induction d as [|d IH]; intros j fuel Hfuel Hs Hrefused Hanswer;
    (destruct fuel as [|fuel]; [lia|]); simpl; unfold sleep;
    (rewrite bool_decide_eq_false_2 by nia);
    rewrite attemptWorld_S, deleteCondition_outcome.
  - replace (j + 0 + 1)%nat with (S j) in * by lia.
    destruct (conditionOutcome_answer _ Hanswer) as (-> & Hok & Herr).
    destruct (is_Ok _).
    + by rewrite Hok.
    + by destruct Herr as [e ->].
  - rewrite conditionOutcome_refusal by (apply Hrefused; lia).
    replace (j + S d + 1)%nat with (S j + d + 1)%nat in * by lia.
    apply IH; [lia|done| |done].
    intros i Hi'. apply Hrefused. lia.
Qed.

Lemma Delete_unfold (fuel : nat) (m : defaultSecurityGroupManager) (ctx : Context)
    (sdkSG : SecurityGroupInfo) (w : World) :
  Delete fuel m ctx sdkSG w
  = PollImmediateUntil fuel (waitSGDeletionPollInterval m)
      (deleteCondition m (deleteContext m ctx w) (deleteRequestOf sdkSG))
      (Done (deleteContext m ctx w)) w.
Proof. reflexivity. Qed.

(** The trace of the loop, whatever the provider answers: attempts on
    the first ticks only, all before the stop channel closes. *)
Lemma pollLoop_trace (m : defaultSecurityGroupManager) (ctx : Context)
    (sdkSG : SecurityGroupInfo) (interval : Duration) (s : Z) :
  0 < interval →
  ∀ (fuel : nat) (w : World) (r : option GoError) (w' : World),
    pollLoop fuel interval (deleteCondition m ctx (deleteRequestOf sdkSG)) (Some s) w
    = Some (r, w') →
    ∃ k : nat,
      calls w' = calls w ++ deleteCallsAt sdkSG (ticks k (now w) interval)
      ∧ (k = 0%nat ∨ now w + Z.of_nat k * interval < s)
      ∧ now w ≤ now w' ≤ Z.max (now w) s.
Proof.
  intros Hi. induction fuel as [|fuel IH]; intros w r w' Hrun; [done|].
  simpl in Hrun. unfold sleep in Hrun. case_bool_decide as Hstop.
  - injection Hrun as <- <-. exists 0%nat. unfold deleteCallsAt. simpl.
    rewrite app_nil_r. split_and!; [done|by left|lia..].
  - rewrite deleteCondition_outcome in Hrun.
    destruct (conditionOutcome _) as [[] [e|]];
      try (injection Hrun as <- <-; exists 1%nat; unfold deleteCallsAt; simpl;
           split_and!; [done|right; lia|lia..]).
    apply IH in Hrun as (k & Hcalls & Hk & Hnow). simpl in *.
    exists (S k). rewrite Hcalls. unfold deleteCallsAt. simpl.
    rewrite <- app_assoc. split_and!; [done|right; lia|lia..].
Qed.

(** What the loop returns comes from the provider, unless it is the
    timeout error of the poll. *)
Lemma pollLoop_sound (m : defaultSecurityGroupManager) (ctx : Context)
    (req : DeleteSecurityGroupInput) (interval : Duration) (stopCh : option Z) :
  ∀ (fuel : nat) (w : World) (r : option GoError) (w' : World),
    pollLoop fuel interval (deleteCondition m ctx req) stopCh w = Some (r, w') →
    match r with
    | None => ∃ w0, DeleteSecurityGroupWithContext (ec2Client m) w0 ctx req = Ok ()
    | Some e =>
        isDependencyViolation e = false
        ∧ (e = ErrWaitTimeout
           ∨ ∃ w0, DeleteSecurityGroupWithContext (ec2Client m) w0 ctx req = Err e)
    end.
Proof.
  induction fuel as [|fuel IH]; intros w r w' Hrun; [done|].
  simpl in Hrun. destruct (sleep interval stopCh w) as [t|t].
  - rewrite deleteCondition_outcome in Hrun. unfold conditionOutcome in Hrun.
    destruct (DeleteSecurityGroupWithContext _ (advance t w) _ _) as [[]|e] eqn:Hresp.
    + injection Hrun as <- <-. by eexists.
    + destruct (isDependencyViolation e) eqn:Hdv.
      * by eapply IH.
      * injection Hrun as <- <-. split; [done|]. right. by eexists.
  - injection Hrun as <- <-. split; [done|]. by left.
Qed.

End DeleteMore.

Section DeleteExtras.
Context `{Networking} `{SDKConversion}.


(** X11: when the provider refuses the first [k] delete-calls with the
    dependency conflict and answers the next one otherwise, and the
    context is still open [k] poll intervals after entry, [Delete]
    returns that answer (nil on success, the error otherwise) after
    exactly [k + 1] delete-calls, [k] poll intervals after entry. *)
Theorem Delete_after_refusals (m : defaultSecurityGroupManager) (ctx : Context)
    (sdkSG : SecurityGroupInfo) (w : World) (s : Z) (k fuel : nat) :
  let interval := waitSGDeletionPollInterval m in
  let world := attemptWorld w sdkSG interval in
  let answer := deleteAnswer m ctx w sdkSG in
  0 < interval →
  Done (deleteContext m ctx w) = Some s →
  (k = 0%nat ∨ now w + Z.of_nat k * interval < s) →
  (∀ j, (j < k)%nat → isRefusal (answer (world j)) = true) →
  isRefusal (answer (world k)) = false →
  (k ≤ fuel)%nat →
  Delete fuel m ctx sdkSG w
  = Some (errorOf (answer (world k)),
          {| now := now w + Z.of_nat k * interval;
             calls := calls w ++ deleteCallsAt sdkSG
                        (attemptInstants (now w) interval (S k)) |}).
Proof.
  intros interval world answer Hi Hdone Hk Hrefused Hanswer Hfuel.
  subst interval world answer. unfold deleteAnswer in *.
  assert (∀ j,
            record (DeleteSecurityGroupCall (deleteRequestOf sdkSG))
              (attemptWorld w sdkSG (waitSGDeletionPollInterval m) j)
            = {| now := now w + Z.of_nat j * waitSGDeletionPollInterval m;
                 calls := calls w ++ deleteCallsAt sdkSG
                   (attemptInstants (now w) (waitSGDeletionPollInterval m) (S j)) |})
    as Hrecord.
  { intros j. pose proof (attemptWorld_S w sdkSG (waitSGDeletionPollInterval m) j) as HS.
    unfold advance in HS. injection HS as _ Hcalls.
    unfold record at 1. f_equal. exact Hcalls. }
  rewrite Delete_unfold. unfold PollImmediateUntil.
  rewrite Hdone, deleteCondition_outcome.
  destruct k as [|k].
  - rewrite attemptWorld_0 in Hanswer |- *.
    rewrite <- Hrecord, attemptWorld_0.
    destruct (conditionOutcome_answer _ Hanswer) as (-> & Hok & Herr).
    destruct (is_Ok _).
    + by rewrite Hok.
    + by destruct Herr as [e ->].
  - destruct Hk as [|Hk]; [done|].
    pose proof (Hrefused 0%nat ltac:(lia)) as H0'. rewrite attemptWorld_0 in H0'.
    rewrite conditionOutcome_refusal by done. cbv beta iota. unfold closedAt.
    rewrite bool_decide_eq_false_2 by (simpl; nia).
    rewrite <- Hrecord.
    replace (record (DeleteSecurityGroupCall (deleteRequestOf sdkSG)) w)
      with (record (DeleteSecurityGroupCall (deleteRequestOf sdkSG))
              (attemptWorld w sdkSG (waitSGDeletionPollInterval m) 0))
      by (by rewrite attemptWorld_0).
    replace (S k) with (0 + k + 1)%nat in * by lia.
    apply pollLoop_after_refusals; [done|lia|lia| |done].
    intros i Hi'. apply Hrefused. lia.
Qed.

(** X12: a deadline that is not longer than the poll interval leaves room
    for one attempt only: [Delete] issues exactly one delete-call, and a
    refusal of that call comes out as the timeout error of the poll. *)
Theorem Delete_single_attempt (m : defaultSecurityGroupManager) (ctx : Context)
    (sdkSG : SecurityGroupInfo) (w : World) (fuel : nat) :
  let answer := deleteAnswer m ctx w sdkSG w in
  0 < waitSGDeletionPollInterval m →
  waitSGDeletionTimeout m ≤ waitSGDeletionPollInterval m →
  (0 < fuel)%nat →
  ∃ w',
    Delete fuel m ctx sdkSG w
    = Some (if isRefusal answer then Some ErrWaitTimeout else errorOf answer, w')
    ∧ calls w' = calls w ++ deleteCallsAt sdkSG [now w].
Proof.
  intros answer Hi Ht Hfuel. subst answer.
  rewrite Delete_unfold. unfold PollImmediateUntil, deleteAnswer, deleteContext.
  destruct (Done_WithTimeout_bound ctx (now w) (waitSGDeletionTimeout m))
    as (s & -> & Hs).
  rewrite deleteCondition_outcome.
  destruct (isRefusal _) eqn:Hrefusal.
  - rewrite conditionOutcome_refusal by done. simpl.
    case_bool_decide; [by eexists|].
    destruct fuel as [|fuel]; [lia|]. simpl. unfold sleep. simpl.
    rewrite bool_decide_eq_true_2 by lia. by eexists.
  - destruct (conditionOutcome_answer _ Hrefusal) as (-> & Hok & Herr).
    destruct (is_Ok _).
    + rewrite Hok by done. by eexists.
    + destruct Herr as [e ->]; [done|]. by eexists.
Qed.

End DeleteExtras.


(** X11 with the same provider: two refusals, then success after four
    seconds and three delete-calls. *)
Lemma Delete_after_refusals_witness :
  Delete 61 (stubManager (Some 2%nat)) Background existingSG startWorld
  = Some (None,
          {| now := 4 * Second;
             calls := deleteCallsAt existingSG [0; 2 * Second; 4 * Second] |}).
Proof.
  rewrite (Delete_after_refusals (stubManager (Some 2%nat)) Background existingSG
             startWorld (2 * Minute) 2 61).
  - reflexivity.
  - reflexivity.
  - reflexivity.
  - right. reflexivity.
  - intros j Hj. destruct j as [|[|j]]; [reflexivity|reflexivity|lia].
  - reflexivity.
  - lia.
Defined.

(** X12 with a deadline of one second and a poll interval of two: one
    refused attempt, then the timeout error, one second after entry. *)
Lemma Delete_single_attempt_witness :
  ∃ w',
    Delete 1 (withDeletionSettings (stubManager None) (2 * Second) (1 * Second))
      Background existingSG startWorld
    = Some (Some ErrWaitTimeout, w')
    ∧ calls w' = [] ++ deleteCallsAt existingSG [0].
Proof.
  apply (Delete_single_attempt
           (withDeletionSettings (stubManager None) (2 * Second) (1 * Second))
           Background existingSG startWorld 1).
  - reflexivity.
  - vm_compute. discriminate.
  - lia.
Defined.

(** ** Create, then Delete *)

Section CreateThenDelete.
Context `{Networking} `{SDKConversion}.

(** X13: deleting the group that [Create] has just made, when the
    provider accepts the delete-call, takes one attempt and no time: the
    trace holds the create-call, the ingress reconciliation and one
    delete-call, all three on the same group id for the last two. *)
Theorem Create_then_Delete (m : defaultSecurityGroupManager) (ctx ctx' : Context)
    (resSG : SecurityGroup) (w w1 : World) (status : SecurityGroupStatus)
    (tags : TagMap) (fuel : nat) :
  let sdkSG :=
    {| SecurityGroupID := StatusGroupID status; SecurityGroupInfo_Tags := tags |} in
  Create m ctx resSG w = (Ok status, w1) →
  deleteAnswer m ctx' w1 sdkSG w1 = Ok () →
  ∃ infos,
    buildIPPermissionInfos (Ingress (Spec resSG)) = Ok infos
    ∧ Delete fuel m ctx' sdkSG w1
      = Some (None,
              {| now := now w;
                 calls := calls w ++
                   [ (now w, CreateSecurityGroupCall (requestOf m resSG));
                     (now w, ReconcileIngressCall (StatusGroupID status) infos);
                     (now w, DeleteSecurityGroupCall
                               {| DeleteSecurityGroupInput_GroupId :=
                                    Some (StatusGroupID status) |}) ] |}).
Proof.
  intros sdkSG. rewrite Create_run.
  destruct (buildIPPermissionInfos _) as [infos|e]; [|done]. simpl.
  destruct (CreateSecurityGroupWithContext _ _ _ _) as [resp|e]; [|done]. simpl.
  destruct (ReconcileIngress _ _ _ _ _) as [e|]; [done|].
  intros [= <- <-] Hanswer. exists infos. split; [done|].
  rewrite Delete_unfold. unfold PollImmediateUntil.
  rewrite deleteCondition_outcome. unfold deleteAnswer in Hanswer. rewrite Hanswer.
  simpl. unfold record. simpl. by rewrite <- !app_assoc.
Qed.

End CreateThenDelete.

(** X13 with a provider that accepts the delete-call at once. *)
Lemma Create_then_Delete_witness :
  ∃ infos,
    buildIPPermissionInfos (Ingress (Spec (exampleSG [httpsRule]))) = Ok infos
    ∧ Delete 1 (stubManager (Some 0%nat)) Background existingSG
        (Create (stubManager (Some 0%nat)) Background (exampleSG [httpsRule])
           startWorld).2
      = Some (None,
              {| now := 0;
                 calls := [] ++
                   [ (0, CreateSecurityGroupCall
                           (requestOf (stubManager (Some 0%nat)) (exampleSG [httpsRule])));
                     (0, ReconcileIngressCall "sg-0123" infos);
                     (0, DeleteSecurityGroupCall
                           {| DeleteSecurityGroupInput_GroupId := Some "sg-0123" |}) ] |}).
Proof.
  apply (Create_then_Delete (stubManager (Some 0%nat)) Background Background
           (exampleSG [httpsRule]) startWorld _ {| StatusGroupID := "sg-0123" |}
           {[ "team" := "core" ]} 1).
  - reflexivity.
  - reflexivity.
Defined.

(** * The delete loop, attempt by attempt *)

Section DeleteAttempts.
Context `{Networking} `{SDKConversion}.

Lemma record_attemptWorld (w : World) (sdkSG : SecurityGroupInfo) (interval : Duration)
    (j : nat) :
  record (DeleteSecurityGroupCall (deleteRequestOf sdkSG))
    (attemptWorld w sdkSG interval j)
  = {| now := now w + Z.of_nat j * interval;
       calls := calls w ++ deleteCallsAt sdkSG
                  (attemptInstants (now w) interval (S j)) |}.
Proof.
  pose proof (attemptWorld_S w sdkSG interval j) as HS.
  unfold advance in HS. injection HS as _ Hcalls.
  unfold record at 1. f_equal. exact Hcalls.
Qed.

(** The loop after attempt [j], across [d] further refused attempts. *)
Lemma pollLoop_skip_refusals (m : defaultSecurityGroupManager) (ctx : Context)
    (sdkSG : SecurityGroupInfo) (w : World) (interval : Duration) (s : Z) (d : nat) :
  0 < interval →
  ∀ (j fuel : nat),
    now w + Z.of_nat (j + d) * interval < s →
    (∀ i, (j < i ≤ j + d)%nat →
       isRefusal (DeleteSecurityGroupWithContext (ec2Client m)
                    (attemptWorld w sdkSG interval i) ctx (deleteRequestOf sdkSG))
       = true) →
    pollLoop (d + fuel) interval (deleteCondition m ctx (deleteRequestOf sdkSG)) (Some s)
      (record (DeleteSecurityGroupCall (deleteRequestOf sdkSG))
         (attemptWorld w sdkSG interval j))
    = pollLoop fuel interval (deleteCondition m ctx (deleteRequestOf sdkSG)) (Some s)
        (record (DeleteSecurityGroupCall (deleteRequestOf sdkSG))
           (attemptWorld w sdkSG interval (j + d))).
Proof.
  intros Hi. induction d as [|d IH]; intros j fuel Hs Hrefused.
  - by replace (j + 0)%nat with j by lia.
  - simpl. unfold sleep. rewrite bool_decide_eq_false_2 by (simpl; nia).
    simpl. rewrite attemptWorld_S, deleteCondition_outcome.
    rewrite conditionOutcome_refusal by (apply Hrefused; lia).
    replace (j + S d)%nat with (S j + d)%nat in * by lia.
    apply IH; [done|]. intros i Hi'. apply Hrefused. lia.
Qed.

(** Where [Delete] stands when its first [k] attempts were refused and
    the context was open at the instant of attempt [k]: the answer to
    attempt [k] decides. *)
Lemma Delete_at_attempt (m : defaultSecurityGroupManager) (ctx : Context)
    (sdkSG : SecurityGroupInfo) (w : World) (s : Z) (k f : nat) :
  0 < waitSGDeletionPollInterval m →
  Done (deleteContext m ctx w) = Some s →
  (k = 0%nat ∨ now w + Z.of_nat k * waitSGDeletionPollInterval m < s) →
  (∀ j, (j < k)%nat →
     isRefusal (deleteAnswer m ctx w sdkSG
                  (attemptWorld w sdkSG (waitSGDeletionPollInterval m) j)) = true) →
  Delete (k + f) m ctx sdkSG w
  = let reached :=
      record (DeleteSecurityGroupCall (deleteRequestOf sdkSG))
        (attemptWorld w sdkSG (waitSGDeletionPollInterval m) k) in
    match conditionOutcome
            (deleteAnswer m ctx w sdkSG
               (attemptWorld w sdkSG (waitSGDeletionPollInterval m) k)) with
    | (_, Some e) => Some (Some e, reached)
    | (true, None) => Some (None, reached)
    | (false, None) =>
        if bool_decide (s ≤ now w + Z.of_nat k * waitSGDeletionPollInterval m)
        then Some (Some ErrWaitTimeout, reached)
        else pollLoop f (waitSGDeletionPollInterval m)
               (deleteCondition m (deleteContext m ctx w) (deleteRequestOf sdkSG))
               (Some s) reached
    end.
Proof.
  intros Hi Hdone Hk Hrefused. unfold deleteAnswer in *.
  rewrite Delete_unfold. unfold PollImmediateUntil.
  rewrite Hdone, deleteCondition_outcome.
  destruct k as [|k].
  - rewrite attemptWorld_0. simpl.
    destruct (conditionOutcome _) as [[] [e|]]; try done.
    unfold closedAt. simpl.
    destruct (decide (s ≤ now w)).
    + by rewrite !bool_decide_eq_true_2 by lia.
    + by rewrite !bool_decide_eq_false_2 by lia.
  - destruct Hk as [|Hk]; [done|].
    pose proof (Hrefused 0%nat ltac:(lia)) as H0'. rewrite attemptWorld_0 in H0'.
    rewrite conditionOutcome_refusal by done. cbv beta iota. unfold closedAt.
    rewrite bool_decide_eq_false_2 by (simpl; nia).
    replace (record (DeleteSecurityGroupCall (deleteRequestOf sdkSG)) w)
      with (record (DeleteSecurityGroupCall (deleteRequestOf sdkSG))
              (attemptWorld w sdkSG (waitSGDeletionPollInterval m) 0))
      by (by rewrite attemptWorld_0).
    replace (S k + f)%nat with (k + S f)%nat by lia.
    rewrite pollLoop_skip_refusals; [|done|simpl; nia|intros i Hi'; apply Hrefused; lia].
    simpl. unfold sleep. rewrite bool_decide_eq_false_2 by (simpl; nia).
    simpl. rewrite attemptWorld_S, deleteCondition_outcome.
    rewrite (bool_decide_eq_false_2 (s ≤ _)) by lia.
    by destruct (conditionOutcome _) as [[] [e|]].
Qed.

End DeleteAttempts.

Section DeleteRuns.
Context `{Networking} `{SDKConversion}.

(** C3: every attempt of [Delete] is classified by the answer to its
    delete-call.  Take a [Delete] whose first [k] delete-calls were
    refused with the dependency conflict and that is still running at the
    instant of attempt [k], [k] poll intervals after entry.  If the
    provider accepts the call of attempt [k], [Delete] returns nil there,
    after [k + 1] calls.  If it answers with an error that is not an
    [awserr.Error] of code "DependencyViolation", [Delete] returns that
    error there, after [k + 1] calls and no more.  If it answers with the
    dependency conflict, [Delete] goes on: when the next tick, one poll
    interval later, comes before the context is done, the next
    delete-call is issued at that tick; otherwise [Delete] ends with the
    timeout error of the poll, having issued [k + 1] calls. *)
Theorem Delete_attempt_classified (m : defaultSecurityGroupManager) (ctx : Context)
    (sdkSG : SecurityGroupInfo) (w : World) (s : Z) (k fuel : nat) :
  let interval := waitSGDeletionPollInterval m in
  let world := attemptWorld w sdkSG interval in
  let answer := deleteAnswer m ctx w sdkSG in
  let after := λ j : nat,
    {| now := now w + Z.of_nat j * interval;
       calls := calls w ++ deleteCallsAt sdkSG (attemptInstants (now w) interval (S j)) |} in
  0 < interval →
  Done (deleteContext m ctx w) = Some s →
  (k = 0%nat ∨ now w + Z.of_nat k * interval < s) →
  (∀ j, (j < k)%nat → isRefusal (answer (world j)) = true) →
  (Z.to_nat (waitSGDeletionTimeout m / interval) < fuel)%nat →
  (answer (world k) = Ok () →
     Delete fuel m ctx sdkSG w = Some (None, after k))
  ∧ (∀ e, answer (world k) = Err e → isDependencyViolation e = false →
       Delete fuel m ctx sdkSG w = Some (Some e, after k))
  ∧ (∀ e, answer (world k) = Err e → isDependencyViolation e = true →
       (now w + Z.of_nat (S k) * interval < s →
          ∃ r w' rest,
            Delete fuel m ctx sdkSG w = Some (r, w')
            ∧ calls w' = calls (after (S k)) ++ rest)
       ∧ (s ≤ now w + Z.of_nat (S k) * interval →
          Delete fuel m ctx sdkSG w
          = Some (Some ErrWaitTimeout,
                  {| now := Z.max (now w + Z.of_nat k * interval) s;
                     calls := calls (after k) |}))).
Proof.
  intros interval world answer after Hi Hdone Hk Hrefused Hfuel.
  subst interval world answer after.
  destruct (Done_WithTimeout_bound ctx (now w) (waitSGDeletionTimeout m))
    as (s' & Hs' & Hle).
  assert (s' = s) as -> by (unfold deleteContext in Hdone; congruence). clear Hs'.
  assert (k < fuel)%nat as Hkf.
  { destruct Hk as [->|Hk]; [lia|].
    assert (Z.of_nat k ≤ waitSGDeletionTimeout m / waitSGDeletionPollInterval m);
      [|lia].
    apply Z.div_le_lower_bound; [done|]. nia. }
  pose proof (Delete_terminates m ctx sdkSG w fuel Hi Hfuel) as [[r w'] Hrun].
  revert Hrun.
  replace fuel with (k + S (fuel - S k))%nat by lia.
  rewrite (Delete_at_attempt m ctx sdkSG w s k) by done. cbv zeta.
  intros Hrun. split_and!.
  - intros ->. simpl. by rewrite record_attemptWorld.
  - intros e -> Hdv. simpl. rewrite Hdv. by rewrite record_attemptWorld.
  - intros e Hanswer Hdv. rewrite Hanswer in Hrun |- *. simpl in Hrun |- *.
    rewrite Hdv in Hrun |- *. split.
    + intros Hnext. exists r, w'.
      rewrite bool_decide_eq_false_2 in Hrun |- * by nia. simpl in Hrun |- *.
      unfold sleep in Hrun |- *.
      rewrite bool_decide_eq_false_2 in Hrun |- * by (simpl; lia).
      simpl in Hrun. rewrite attemptWorld_S, deleteCondition_outcome in Hrun.
      simpl. rewrite attemptWorld_S, deleteCondition_outcome.
      destruct (conditionOutcome _) as [[] [e'|]];
        try (exists []; split; [done|]; injection Hrun as _ <-;
             by rewrite app_nil_r, record_attemptWorld).
      rewrite Hrun.
      destruct (pollLoop_trace m _ sdkSG _ s Hi _ _ _ _ Hrun) as (n & Hcalls & _).
      eexists. split; [done|]. rewrite Hcalls. by rewrite record_attemptWorld.
    + intros Hstop. case_bool_decide as Hclosed.
      * rewrite record_attemptWorld. by rewrite Z.max_l by lia.
      * simpl. unfold sleep. rewrite bool_decide_eq_true_2 by (simpl; lia).
        rewrite record_attemptWorld. reflexivity.
Qed.

(** [Delete] under refusals that last until its context is done at
    instant [s]: one attempt at entry, one per tick before [s], then the
    poll gives up at [s]. *)
Lemma Delete_refused_until_done (m : defaultSecurityGroupManager) (ctx : Context)
    (sdkSG : SecurityGroupInfo) (w : World) (s : Z) (fuel : nat) :
  0 < waitSGDeletionPollInterval m →
  Done (deleteContext m ctx w) = Some s →
  (∀ j, j = 0%nat ∨ now w + Z.of_nat j * waitSGDeletionPollInterval m < s →
     isRefusal (deleteAnswer m ctx w sdkSG
                  (attemptWorld w sdkSG (waitSGDeletionPollInterval m) j)) = true) →
  (ticksBefore (now w) s (waitSGDeletionPollInterval m) < fuel)%nat →
  Delete fuel m ctx sdkSG w
  = Some (Some ErrWaitTimeout,
          {| now := Z.max (now w) s;
             calls := calls w ++ deleteCallsAt sdkSG
               (attemptInstants (now w) (waitSGDeletionPollInterval m)
                  (S (ticksBefore (now w) s (waitSGDeletionPollInterval m)))) |}).
Proof.
  intros Hi Hdone Hrefused Hfuel.
  set (k := ticksBefore (now w) s (waitSGDeletionPollInterval m)) in *.
  assert (k = 0%nat ∧ s ≤ now w
          ∨ now w + Z.of_nat k * waitSGDeletionPollInterval m < s
            ∧ s ≤ now w + (Z.of_nat k + 1) * waitSGDeletionPollInterval m) as Hk.
  { destruct (decide (now w < s)) as [Hlt|Hge].
    - right. by apply ticksBefore_spec.
    - left. split; [|lia]. subst k. unfold ticksBefore.
      assert ((s - now w - 1) / waitSGDeletionPollInterval m < 0); [|lia].
      apply Z.div_lt_upper_bound; lia. }
  replace fuel with (k + S (fuel - S k))%nat by lia.
  rewrite (Delete_at_attempt m ctx sdkSG w s k); [|done|done|tauto|].
  2: { intros j Hj. apply Hrefused. destruct Hk as [[-> _]|[Hk _]]; [lia|]. right. nia. }
  cbv zeta. rewrite conditionOutcome_refusal by (apply Hrefused; tauto).
  case_bool_decide as Hclosed.
  - rewrite record_attemptWorld. do 3 f_equal.
    destruct Hk as [[-> _]|[Hk _]]; lia.
  - destruct Hk as [[Hk0 Hk]|[Hlo Hhi]]; [rewrite Hk0 in *; lia|].
    simpl. unfold sleep. rewrite bool_decide_eq_true_2 by (simpl; lia).
    rewrite record_attemptWorld. unfold advance. simpl. do 3 f_equal. lia.
Qed.

(** C2, amended: the caller cancels its context at instant [c], not later
    than the deletion deadline nor than its own deadline if it has one,
    and the delete-calls that [Delete] makes before [c] (the one at entry
    in any case) are refused with the dependency conflict.  Then [Delete]
    ends at [c] (at once, after the attempt at entry, if [c] is already
    past), with no delete-call at or after [c] apart from the one at
    entry, and what it returns is the timeout error of the poll: the very
    error that it returns, under a context that is never done, when the
    delete-calls are refused until the deletion deadline.  Cancellation
    and timeout are not told apart. *)
Theorem Delete_cancelled_returns_timeout_error (m : defaultSecurityGroupManager)
    (ctx : Context) (sdkSG : SecurityGroupInfo) (w : World) (c : Z) (fuel : nat) :
  let interval := waitSGDeletionPollInterval m in
  let timeout := waitSGDeletionTimeout m in
  let world := attemptWorld w sdkSG interval in
  0 < interval →
  cancelAt ctx = Some c →
  c ≤ now w + timeout →
  (∀ d, deadline ctx = Some d → c ≤ d) →
  (∀ j, j = 0%nat ∨ now w + Z.of_nat j * interval < c →
     isRefusal (deleteAnswer m ctx w sdkSG (world j)) = true) →
  (Z.to_nat (timeout / interval) < fuel)%nat →
  CtxErr ctx (Z.max (now w) c) = Some ContextCanceled
  ∧ (∃ attempts,
       Delete fuel m ctx sdkSG w
       = Some (Some ErrWaitTimeout,
               {| now := Z.max (now w) c;
                  calls := calls w ++ deleteCallsAt sdkSG attempts |})
       ∧ head attempts = Some (now w)
       ∧ Forall (λ t, t = now w ∨ t < c) attempts)
  ∧ (∀ ctx2,
       Done ctx2 = None →
       (∀ j, j = 0%nat ∨ now w + Z.of_nat j * interval < now w + timeout →
          isRefusal (deleteAnswer m ctx2 w sdkSG (world j)) = true) →
       fst <$> Delete fuel m ctx2 sdkSG w = fst <$> Delete fuel m ctx sdkSG w).
Proof.
  intros interval timeout world Hi Hc Hle Hd Hrefused Hfuel.
  subst interval timeout world.
  assert (Done (deleteContext m ctx w) = Some c) as Hdone.
  { unfold deleteContext. rewrite Done_WithTimeout. unfold Done. rewrite Hc.
    destruct (deadline ctx) as [d|] eqn:Hdl; simpl; f_equal;
      [specialize (Hd d eq_refl)|]; lia. }
  pose proof (ticksBefore_le (now w) c (waitSGDeletionPollInterval m)
                (waitSGDeletionTimeout m) Hi Hle).
  pose proof (ticksBefore_le (now w) (now w + waitSGDeletionTimeout m)
                (waitSGDeletionPollInterval m) (waitSGDeletionTimeout m) Hi ltac:(lia)).
  rewrite (Delete_refused_until_done m ctx sdkSG w c) by (done || lia).
  split_and!.
  - unfold CtxErr. rewrite Hc. destruct (deadline ctx) as [d|] eqn:Hdl.
    + specialize (Hd d eq_refl). rewrite bool_decide_eq_true_2; [done|lia].
    + rewrite bool_decide_eq_true_2; [done|lia].
  - eexists. split_and!; [done|done|].
    constructor; [by left|]. apply Forall_forall. intros x Hx.
    destruct (decide (now w < c)) as [Hlt|Hge].
    + destruct (ticksBefore_spec (now w) c (waitSGDeletionPollInterval m) Hi Hlt)
        as [Hlo _].
      apply ticks_bounds in Hx; [|done]. right. lia.
    + replace (ticksBefore (now w) c (waitSGDeletionPollInterval m)) with 0%nat in Hx;
        [by apply elem_of_nil in Hx|].
      unfold ticksBefore.
      assert ((c - now w - 1) / waitSGDeletionPollInterval m < 0); [|lia].
      apply Z.div_lt_upper_bound; lia.
  - intros ctx2 Hctx2 Hrefused2.
    rewrite (Delete_refused_until_done m ctx2 sdkSG w (now w + waitSGDeletionTimeout m));
      [done|done| |done|lia].
    unfold deleteContext. rewrite Done_WithTimeout. by rewrite Hctx2.
Qed.

Lemma sleep_Tick (interval : Duration) (stopCh : option Z) (w : World) (t : Z) :
  sleep interval stopCh w = Tick t → t = now w + interval.
Proof. unfold sleep. destruct stopCh; [case_bool_decide|]; congruence. Qed.

(** Every run of the loop after a refused attempt [j]: it ends at some
    attempt [k], all attempts before [k] having been refused. *)
Lemma pollLoop_run (m : defaultSecurityGroupManager) (ctx : Context)
    (sdkSG : SecurityGroupInfo) (w : World) (interval : Duration) (stopCh : option Z) :
  ∀ (fuel j : nat) (r : option GoError) (w' : World),
    (∀ i, (i ≤ j)%nat →
       isRefusal (DeleteSecurityGroupWithContext (ec2Client m)
                    (attemptWorld w sdkSG interval i) ctx (deleteRequestOf sdkSG))
       = true) →
    pollLoop fuel interval (deleteCondition m ctx (deleteRequestOf sdkSG)) stopCh
      (record (DeleteSecurityGroupCall (deleteRequestOf sdkSG))
         (attemptWorld w sdkSG interval j))
    = Some (r, w') →
    ∃ k : nat,
      (∀ i, (i < k)%nat →
         isRefusal (DeleteSecurityGroupWithContext (ec2Client m)
                      (attemptWorld w sdkSG interval i) ctx (deleteRequestOf sdkSG))
         = true)
      ∧ calls w' = calls w ++ deleteCallsAt sdkSG (attemptInstants (now w) interval (S k))
      ∧ match r with
        | None =>
            DeleteSecurityGroupWithContext (ec2Client m)
              (attemptWorld w sdkSG interval k) ctx (deleteRequestOf sdkSG) = Ok ()
        | Some e =>
            isDependencyViolation e = false
            ∧ (DeleteSecurityGroupWithContext (ec2Client m)
                 (attemptWorld w sdkSG interval k) ctx (deleteRequestOf sdkSG) = Err e
               ∨ e = ErrWaitTimeout
                 ∧ isRefusal (DeleteSecurityGroupWithContext (ec2Client m)
                                (attemptWorld w sdkSG interval k) ctx
                                (deleteRequestOf sdkSG)) = true)
        end.
Proof.
  induction fuel as [|fuel IH]; intros j r w' Hrefused Hrun; [done|].
  simpl in Hrun. destruct (sleep _ _ _) as [t|t] eqn:Hsleep.
  - apply sleep_Tick in Hsleep. simpl in Hsleep. subst t.
    rewrite attemptWorld_S, deleteCondition_outcome in Hrun.
    unfold conditionOutcome in Hrun.
    destruct (DeleteSecurityGroupWithContext _ (attemptWorld w sdkSG interval (S j)) _ _)
      as [[]|e] eqn:Hanswer.
    + injection Hrun as <- <-. exists (S j). rewrite record_attemptWorld.
      split_and!; [|done|done]. intros i Hi. apply Hrefused. lia.
    + destruct (isDependencyViolation e) eqn:Hdv.
      * apply IH in Hrun; [done|]. intros i Hi.
        destruct (decide (i = S j)) as [->|]; [by rewrite Hanswer|].
        apply Hrefused. lia.
      * injection Hrun as <- <-. exists (S j). rewrite record_attemptWorld.
        split_and!; [|done|done|by left]. intros i Hi. apply Hrefused. lia.
  - injection Hrun as <- <-. exists j. unfold advance. cbn [calls].
    rewrite record_attemptWorld.
    split_and!; [|done|done|right; split; [done|by apply Hrefused]].
    intros i Hi. apply Hrefused. lia.
Qed.

(** X10: every run of [Delete] ends at one of its attempts, all earlier
    delete-calls having been refused with the dependency conflict, and
    what it returns is decided by the answer to the last delete-call it
    issued: nil only if the provider accepted that call; an error only if
    it is the provider's answer to that call, or the timeout error of the
    poll after that call was refused.  The error is never one of code
    "DependencyViolation". *)
Theorem Delete_sound (m : defaultSecurityGroupManager) (ctx : Context)
    (sdkSG : SecurityGroupInfo) (w : World) (fuel : nat) (r : option GoError)
    (w' : World) :
  let interval := waitSGDeletionPollInterval m in
  let world := attemptWorld w sdkSG interval in
  let answer := deleteAnswer m ctx w sdkSG in
  Delete fuel m ctx sdkSG w = Some (r, w') →
  ∃ k : nat,
    (∀ j, (j < k)%nat → isRefusal (answer (world j)) = true)
    ∧ calls w' = calls w ++ deleteCallsAt sdkSG (attemptInstants (now w) interval (S k))
    ∧ match r with
      | None => answer (world k) = Ok ()
      | Some e =>
          isDependencyViolation e = false
          ∧ (answer (world k) = Err e
             ∨ e = ErrWaitTimeout ∧ isRefusal (answer (world k)) = true)
      end.
Proof.
  intros interval world answer. subst interval world answer. unfold deleteAnswer.
  rewrite Delete_unfold. unfold PollImmediateUntil.
  rewrite deleteCondition_outcome. unfold conditionOutcome.
  destruct (DeleteSecurityGroupWithContext _ w _ _) as [[]|e] eqn:Hanswer.
  - intros [= <- <-]. exists 0%nat. rewrite attemptWorld_0.
    split_and!; [|done|done]. intros j Hj. lia.
  - destruct (isDependencyViolation e) eqn:Hdv.
    + destruct (closedAt _ _).
      * intros [= <- <-]. exists 0%nat. rewrite attemptWorld_0, Hanswer.
        split_and!; [|done|done|by right]. intros j Hj. lia.
      * intros Hrun.
        replace (record (DeleteSecurityGroupCall (deleteRequestOf sdkSG)) w)
          with (record (DeleteSecurityGroupCall (deleteRequestOf sdkSG))
                  (attemptWorld w sdkSG (waitSGDeletionPollInterval m) 0)) in Hrun
          by (by rewrite attemptWorld_0).
        apply pollLoop_run in Hrun; [done|].
        intros i Hi. replace i with 0%nat by lia.
        by rewrite attemptWorld_0, Hanswer.
    + intros [= <- <-]. exists 0%nat. rewrite attemptWorld_0.
      split_and!; [|done|done|by left]. intros j Hj. lia.
Qed.

(** C9: the poll interval defaults to two seconds and the deadline to
    two minutes: these are the values that the constructor stores.  Both
    are fields of the manager that [Delete] reads on every call, so a
    manager with the same collaborators and other values in these two
    fields exists, and [Delete] follows the values it finds there: under
    persistent refusal it issues its delete-calls [interval] apart and
    gives up [timeout] after entry. *)
Theorem deletion_settings_default_and_overridable (ec2 : EC2)
    (tracking : TrackingProvider) (tagging : TaggingManager)
    (reconciler : SecurityGroupReconciler) (vpc : string) (log : Logger)
    (interval timeout : Duration) :
  let m := NewDefaultSecurityGroupManager ec2 tracking tagging reconciler vpc log in
  let m' := withDeletionSettings m interval timeout in
  (waitSGDeletionPollInterval m = 2 * Second
   ∧ waitSGDeletionTimeout m = 2 * Minute
   ∧ Second ≤ waitSGDeletionPollInterval m < Minute
   ∧ Minute ≤ waitSGDeletionTimeout m < 60 * Minute)
  ∧ (ec2Client m' = ec2 ∧ trackingProvider m' = tracking ∧ taggingManager m' = tagging
     ∧ networkingSGReconciler m' = reconciler ∧ vpcID m' = vpc
     ∧ waitSGDeletionPollInterval m' = interval
     ∧ waitSGDeletionTimeout m' = timeout)
  ∧ (∃ m'' : defaultSecurityGroupManager,
       ec2Client m'' = ec2 ∧ vpcID m'' = vpc
       ∧ waitSGDeletionPollInterval m'' ≠ waitSGDeletionPollInterval m
       ∧ waitSGDeletionTimeout m'' ≠ waitSGDeletionTimeout m)
  ∧ (∀ (sdkSG : SecurityGroupInfo) (w : World) (fuel : nat),
       alwaysRefused m → 0 < interval → 0 < timeout →
       (Z.to_nat (timeout / interval) < fuel)%nat →
       Delete fuel m' Background sdkSG w
       = Some (Some ErrWaitTimeout,
               {| now := now w + timeout;
                  calls := calls w ++ deleteCallsAt sdkSG
                    (now w :: ticks (ticksBefore (now w) (now w + timeout) interval)
                                (now w) interval) |})).
Proof.
  intros m m'. split_and!; try done.
  - exists (withDeletionSettings m (1 * Second) (1 * Minute)). by split_and!.
  - intros sdkSG w fuel Hm Hi Ht Hfuel.
    pose proof (ticksBefore_le (now w) (now w + timeout) interval timeout Hi ltac:(lia)).
    rewrite (Delete_refused m' Background sdkSG w (now w + timeout));
      [by rewrite Z.max_r by lia|done|done|by rewrite Done_WithTimeout|simpl; lia].
Qed.

End DeleteRuns.

(** C3 with a provider that refuses the first two delete-calls: the
    attempt made two seconds after entry is refused, and the next
    delete-call is issued at the next tick, four seconds after entry. *)
Lemma Delete_attempt_classified_witness :
  ∃ r w' rest,
    Delete 61 (stubManager (Some 2%nat)) Background existingSG startWorld = Some (r, w')
    ∧ calls w' = deleteCallsAt existingSG [0; 2 * Second; 4 * Second] ++ rest.
Proof.
  destruct (Delete_attempt_classified (stubManager (Some 2%nat)) Background existingSG
              startWorld (2 * Minute) 1 61) as (_ & _ & Hrefusal).
  - reflexivity.
  - reflexivity.
  - right. reflexivity.
  - intros j Hj. destruct j as [|j]; [reflexivity|lia].
  - vm_compute. lia.
  - destruct (Hrefusal dependencyViolation eq_refl eq_refl) as [Hnext _].
    exact (Hnext eq_refl).
Defined.

(** C2, amended, with a provider that would accept the third delete-call:
    the caller cancels after three seconds, while [Delete] sleeps between
    its second and third attempts. *)
Lemma Delete_cancelled_returns_timeout_error_witness :
  ∃ attempts,
    Delete 61 (stubManager (Some 2%nat)) cancelledAfter3s existingSG startWorld
    = Some (Some ErrWaitTimeout,
            {| now := Z.max 0 (3 * Second);
               calls := [] ++ deleteCallsAt existingSG attempts |})
    ∧ head attempts = Some 0
    ∧ Forall (λ t, t = 0 ∨ t < 3 * Second) attempts.
Proof.
  apply (Delete_cancelled_returns_timeout_error (stubManager (Some 2%nat))
           cancelledAfter3s existingSG startWorld (3 * Second) 61).
  - reflexivity.
  - reflexivity.
  - vm_compute. discriminate.
  - intros d Hd. discriminate Hd.
  - intros j Hj. destruct j as [|[|j]]; [reflexivity|reflexivity|].
    exfalso. destruct Hj as [Hj|Hj]; [discriminate Hj|].
    cbn in Hj.
    unfold defaultWaitSGDeletionPollInterval, Second, Nanosecond in Hj. lia.
  - vm_compute. lia.
Defined.

(** X10 with the same provider and no cancellation: [Delete] returns nil
    at its third attempt, the provider having accepted that call. *)
Lemma Delete_sound_witness :
  ∃ k : nat,
    (∀ j, (j < k)%nat →
       isRefusal (deleteAnswer (stubManager (Some 2%nat)) Background startWorld existingSG
                    (attemptWorld startWorld existingSG (2 * Second) j)) = true)
    ∧ deleteCallsAt existingSG [0; 2 * Second; 4 * Second]
      = [] ++ deleteCallsAt existingSG (attemptInstants 0 (2 * Second) (S k))
    ∧ deleteAnswer (stubManager (Some 2%nat)) Background startWorld existingSG
        (attemptWorld startWorld existingSG (2 * Second) k) = Ok ().
Proof.
  apply (Delete_sound (stubManager (Some 2%nat)) Background existingSG startWorld 61 None
           {| now := 4 * Second;
              calls := deleteCallsAt existingSG [0; 2 * Second; 4 * Second] |}).
  vm_compute. reflexivity.
Defined.

(** C9 with a poll interval of one second and a deadline of three: under
    persistent refusal three delete-calls, one second apart, then the
    timeout error three seconds after entry. *)
Lemma deletion_settings_default_and_overridable_witness :
  Delete 4 (withDeletionSettings (stubManager None) (1 * Second) (3 * Second)) Background
    existingSG startWorld
  = Some (Some ErrWaitTimeout,
          {| now := 3 * Second;
             calls := deleteCallsAt existingSG [0; 1 * Second; 2 * Second] |}).
Proof.
  destruct (deletion_settings_default_and_overridable (stubEC2 "sg-0123" None)
              (mergingProvider {[ "elbv2.k8s.aws/cluster" := "prod" ]}
                 ["kubernetes.io/cluster-name"])
              stubTaggingManager stubReconciler "vpc-1" DiscardLogger
              (1 * Second) (3 * Second)) as (_ & _ & _ & Hdelete).
  unfold stubManager. rewrite (Hdelete existingSG startWorld 4%nat).
  - reflexivity.
  - apply stubManager_alwaysRefused.
  - reflexivity.
  - reflexivity.
  - vm_compute. lia.
Defined.
